(** * ReliableNewsBot: a shallow embedding of [bot.py]

    The bot is a chain of network calls wrapped in retries and fallbacks.
    Its own logic is embedded as a state-and-exception monad over the fields
    of [ReliableNewsBot]; the outside world (HTTP, the feed and HTML parsers,
    the random generator, the chat transport) is an oracle [env] consulted
    once per call; requests, transport calls and pauses leave an event in a
    trace. Handlers run one after the other, and the log is left out. *)

From stdpp Require Import base list strings.
From Stdlib Require Import Lia Ascii.

Local Open Scope string_scope.
Local Open Scope nat_scope.
Local Open Scope list_scope.

(** ** Python strings

    A [str] is modelled by [string]; one element stands for one character
    as far as [len] and slices are concerned. The literals of the source
    are written as they are; no property below rests on the length of one. *)
Module Py.

(** [s[:n]] *)
Fixpoint slice_to (n : nat) (s : string) : string :=
  match n, s with
  | S n', String c s' => String c (slice_to n' s')
  | _, _ => EmptyString
  end.

(** [s.startswith(p)] *)
Definition startswith (s p : string) : bool := String.prefix p s.

(** [sub in s] *)
Fixpoint contains (sub s : string) : bool :=
  String.prefix sub s ||
  match s with
  | EmptyString => false
  | String _ s' => contains sub s'
  end.

(** [s.endswith(p)] *)
Definition endswith (s p : string) : bool :=
  Nat.leb (String.length p) (String.length s) &&
  String.eqb (String.substring (String.length s - String.length p) (String.length p) s) p.

(** truth value of a [str] *)
Definition truthy (s : string) : bool :=
  match s with EmptyString => false | _ => true end.

(** [s.split(sep)] for a one-character separator: [cur] is the part read
    so far, in reverse. *)
Fixpoint split_from (sep : Ascii.ascii) (cur : string) (s : string) : list string :=
  match s with
  | EmptyString => [String.rev cur]
  | String c s' =>
      if Ascii.eqb c sep then String.rev cur :: split_from sep EmptyString s'
      else split_from sep (String c cur) s'
  end.
Definition split (sep : Ascii.ascii) (s : string) : list string :=
  split_from sep EmptyString s.

(** [any(f(x) for x in l)] *)
Definition any {A} (f : A → bool) (l : list A) : bool := existsb f l.

(** [x in l] for a list of strings *)
Definition mem (x : string) (l : list string) : bool := existsb (String.eqb x) l.

Definition nl : string := String (Ascii.ascii_of_nat 10) EmptyString.

End Py.

(** ** Data model *)

(** An article [dict]. Every article the code builds has ['title'] and
    ['summary']; the keys ['link'], ['category'] and ['is_fallback'] may be
    absent ([None] here): a catalogue record has none of them until
    [use_fallback_article] adds the last two. *)
Record article := Article {
  title : string;
  link : option string;
  summary : string;
  category : option string;
  is_fallback : option bool
}.

(** One value of [self.categories]. *)
Record category_cfg := Category {
  name : string;
  emoji : string;
  rss : list string;
  image_keywords : list string;
  fallback_images : list string;
  fallback_articles : list article
}.

(** [self.categories]: a [dict], kept in insertion order because
    [random_news] and [get_image_with_fallback] draw from [list(...)] of it. *)
Definition catalogue := list (string * category_cfg).

Fixpoint dict_get (cats : catalogue) (k : string) : option category_cfg :=
  match cats with
  | [] => None
  | (k', c) :: rest => if String.eqb k k' then Some c else dict_get rest k
  end.

(** In-place change of the value stored under [k]. *)
Fixpoint dict_alter (f : category_cfg → category_cfg) (k : string) (cats : catalogue) : catalogue :=
  match cats with
  | [] => []
  | (k', c) :: rest =>
      if String.eqb k k' then (k', f c) :: rest else (k', c) :: dict_alter f k rest
  end.

(** What [self.current_article] points to. Python binds the attribute to an
    object: either the [dict] that [try_get_fresh_article] has just built,
    or one of the records stored inside the catalogue (the object itself,
    not a copy), named here by its place. *)
Inductive article_ref :=
| Fresh (a : article)
| Shared (category_id : string) (index : nat).

(** ** The outside world *)

(** A feed entry as [feedparser] hands it over; a missing attribute is [None]. *)
Record entry := Entry {
  e_title : option string;
  e_link : option string;
  e_summary : option string;
  e_description : option string
}.

(** A [<meta>] tag as [BeautifulSoup] hands it over. *)
Record meta_tag := Meta {
  m_property : option string;
  m_content : option string
}.

(** A [requests] response, together with what the parsers make of its body:
    [feedparser.parse(content).entries], [soup.find_all('meta')], and the
    [src] of each tag of [soup.find_all('img', src=True)]. *)
Record response := Response {
  status_code : nat;
  feed_entries : list entry;
  meta_tags : list meta_tag;
  img_srcs : list string
}.

Definition keyboard := list (list (string * string)).

Inductive method :=
| reply_text            (* update.message.reply_text *)
| reply_photo           (* update.message.reply_photo *)
| edit_message_media    (* query.edit_message_media *)
| edit_message_text     (* query.edit_message_text *)
| send_photo (chat_id : option string)  (* context.bot.send_photo *)
| answer.               (* query.answer *)

(** One call of a transport method with its keyword arguments; [text] is
    [text=] or [caption=], [photo] is [photo=] or [media=]. *)
Record call := Call {
  meth : method;
  text : string;
  photo : option string;
  reply_markup : option keyboard;
  parse_mode : option string
}.

Inductive exn :=
| KeyError
| IndexError
| AttributeError
| HTTPError
| RequestException
| TelegramError.

(** The oracle. Its first argument is the number of calls made to the
    outside world so far, so that the same request may be answered
    differently at different times. *)
Record env := Env {
  session_get : nat → string → option response;  (* [None]: the call raises *)
  session_head : nat → string → option nat;      (* status code; [None]: the call raises *)
  rand : nat → nat;                              (* the generator behind [random.choice] *)
  transport : nat → call → bool;                 (* [false]: the call raises *)
  get_text : string → string                     (* [BeautifulSoup(s).get_text(separator=' ', strip=True)] *)
}.

Inductive event :=
| EvGet (url : string)
| EvHead (url : string)
| EvCall (c : call) (ok : bool)
| EvSleep (seconds : nat).

(** The fields of the bot, with the clock and the trace of the world. *)
Record state := State {
  categories : catalogue;
  current_article : option article_ref;
  channel_id : option string;
  clock : nat;
  trace : list event
}.

(** ** The monad *)

Inductive outcome (A : Type) :=
| Ret (a : A)
| Raise (e : exn)
| OutOfFuel.
Arguments Ret {A} a.
Arguments Raise {A} e.
Arguments OutOfFuel {A}.

Definition M (A : Type) : Type := state → outcome A * state.

Definition ret {A} (a : A) : M A := λ st, (Ret a, st).

Definition bind {A B} (m : M A) (k : A → M B) : M B :=
  λ st, match m st with
        | (Ret a, st') => k a st'
        | (Raise e, st') => (Raise e, st')
        | (OutOfFuel, st') => (OutOfFuel, st')
        end.

Definition raise {A} (e : exn) : M A := λ st, (Raise e, st).

(** [try: m except Exception as e: h e] *)
Definition try_except {A} (m : M A) (h : exn → M A) : M A :=
  λ st, match m st with
        | (Raise e, st') => h e st'
        | r => r
        end.

Declare Scope py_scope.
Delimit Scope py_scope with py.
Notation "x <- c1 ;; c2" := (bind c1 (λ x, c2))
  (at level 100, c1 at next level, right associativity) : py_scope.
Notation "c1 ;;; c2" := (bind c1 (λ _, c2))
  (at level 100, right associativity) : py_scope.
Local Open Scope py_scope.

Definition get_state : M state := λ st, (Ret st, st).

Definition set_current_article (r : option article_ref) : M unit :=
  λ st, (Ret tt, State (categories st) r (channel_id st) (clock st) (trace st)).

Definition set_categories (cats : catalogue) : M unit :=
  λ st, (Ret tt, State cats (current_article st) (channel_id st) (clock st) (trace st)).

(** [d[k]] and [l[i]] *)
Definition subscript {A} (o : option A) (e : exn) : M A :=
  match o with Some a => ret a | None => raise e end.

(** The object behind a reference. *)
Definition deref (cats : catalogue) (r : article_ref) : option article :=
  match r with
  | Fresh a => Some a
  | Shared cid i => c ← dict_get cats cid; fallback_articles c !! i
  end.

(** [self.current_article] as a value: [None] when the slot is empty. *)
Definition current (st : state) : option article :=
  r ← current_article st; deref (categories st) r.

(** ** Summary truncation (in [try_get_fresh_article]) *)

Definition truncate_summary (clean_text : string) : string :=
  if Nat.ltb 250 (String.length clean_text)
  then Py.slice_to 250 clean_text +:+ "..."
  else clean_text.

(** ** Calls to the outside world *)

Definition emit (ev : event) : M unit :=
  λ st, (Ret tt, State (categories st) (current_article st) (channel_id st)
                       (clock st) (trace st ++ [ev])).

Definition advance : M unit :=
  λ st, (Ret tt, State (categories st) (current_article st) (channel_id st)
                       (S (clock st)) (trace st)).

(** The argument [update] of the handlers: an [Update] (a message or a
    command) or the [CallbackQuery] of a button press. Both have
    [.message.reply_text]; [isinstance(update, Update)] tells them apart. *)
Inductive update_obj := AnUpdate | ACallbackQuery.

Definition isinstance_Update (u : update_obj) : bool :=
  match u with AnUpdate => true | ACallbackQuery => false end.

Definition max_retries_default : nat := 3.
Definition Markdown : option string := Some "Markdown".

Section Bot.

Variable E : env.

(** [self.session.get(url, timeout=10)] *)
Definition http_get (url : string) : M response :=
  st <- get_state ;;
  emit (EvGet url) ;;; advance ;;;
  subscript (session_get E (clock st) url) RequestException.

(** [self.session.head(url, timeout=5).status_code] *)
Definition http_head (url : string) : M nat :=
  st <- get_state ;;
  emit (EvHead url) ;;; advance ;;;
  subscript (session_head E (clock st) url) RequestException.

(** [response.raise_for_status()]: [requests] raises on the statuses 400
    to 599 and on no other. *)
Definition raise_for_status (r : response) : M unit :=
  if Nat.leb 400 (status_code r) && Nat.ltb (status_code r) 600
  then raise HTTPError else ret tt.

(** The index [random.choice] draws in a sequence of length [n]. *)
Definition random_index (n : nat) : M nat :=
  st <- get_state ;;
  match n with
  | 0 => raise IndexError
  | S _ => advance ;;; ret (rand E (clock st) mod n)
  end.

(** [random.choice(l)] *)
Definition random_choice {A} (l : list A) : M A :=
  i <- random_index (length l) ;;
  subscript (l !! i) IndexError.

(** [await method(...)] for a transport method *)
Definition invoke (c : call) : M unit :=
  st <- get_state ;;
  let ok := transport E (clock st) c in
  emit (EvCall c ok) ;;; advance ;;;
  if ok then ret tt else raise TelegramError.

(** [await asyncio.sleep(n)] *)
Definition sleep (n : nat) : M unit := emit (EvSleep n).

(** ** [send_with_retry]

    [for attempt in range(max_retries)]: [todo] iterations are left. *)
Fixpoint send_with_retry_loop (max_retries attempt todo : nat) (c : call) : M unit :=
  match todo with
  | 0 => ret tt
  | S todo' =>
      try_except (invoke c)
        (λ e, if Nat.eqb attempt (max_retries - 1) then raise e
              else sleep 1 ;;; send_with_retry_loop max_retries (S attempt) todo' c)
  end.

Definition send_with_retry (c : call) : M unit :=
  send_with_retry_loop max_retries_default 0 max_retries_default c.

(** ** [start], [help_command] *)

(** The reply keyboard of the menu: its buttons carry a label and no
    callback data. *)
Definition menu : keyboard :=
  [ [("📰 Случайная новость", "")];
    [("💻 Технологии", ""); ("🏛 Политика", "")];
    [("ℹ️ Помощь", "")] ].

Definition start : M unit :=
  send_with_retry
    (Call reply_text
       ("📡 *Добро пожаловать в Reliable News Bot!*" +:+ Py.nl +:+ Py.nl +:+
        "Я всегда найду для вас свежие новости!")
       None (Some menu) Markdown).

Definition help_text : string :=
  "🆘 *Доступные команды:*" +:+ Py.nl +:+ Py.nl +:+
  "📰 Случайная новость - случайная новость из любой категории" +:+ Py.nl +:+
  "💻 Технологии - новости IT и технологий" +:+ Py.nl +:+
  "🏛 Политика - политические новости" +:+ Py.nl +:+ Py.nl +:+
  "Бот автоматически подбирает изображения к новостям".

Definition help_command : M unit :=
  send_with_retry (Call reply_text help_text None None Markdown).

(** ** [try_get_fresh_article] *)

(** [obj.attr] on a feed entry *)
Definition getattr (o : option string) : M string := subscript o AttributeError.

(** [getattr(entry, 'summary', entry.get('description', ''))] *)
Definition raw_summary (entry : entry) : string :=
  match e_summary entry with
  | Some s => s
  | None => default "" (e_description entry)
  end.

(** The body of the [try] for one feed: [true] is [return True], [false]
    is [continue]. *)
Definition try_feed (category_id rss_url : string) : M bool :=
  response <- http_get rss_url ;;
  raise_for_status response ;;;
  match feed_entries response with
  | [] => ret false
  | _ =>
      entry <- random_choice (take 10 (feed_entries response)) ;;
      let summary := raw_summary entry in
      let clean_text := get_text E summary in
      let clean_text := truncate_summary clean_text in
      title <- getattr (e_title entry) ;;
      link <- getattr (e_link entry) ;;
      set_current_article
        (Some (Fresh (Article title (Some link) clean_text (Some category_id) (Some false)))) ;;;
      ret true
  end.

Fixpoint try_feeds (category_id : string) (urls : list string) : M bool :=
  match urls with
  | [] => ret false
  | rss_url :: rest =>
      done <- try_except (try_feed category_id rss_url) (λ _, ret false) ;;
      if done : bool then ret true else try_feeds category_id rest
  end.

Definition try_get_fresh_article (category_id : string) : M bool :=
  st <- get_state ;;
  match dict_get (categories st) category_id with
  | None => ret false
  | Some category => try_feeds category_id (rss category)
  end.

(** ** [use_fallback_article] *)

(** [d.update({'category': category_id, 'is_fallback': True})] *)
Definition mark_fallback (category_id : string) (a : article) : article :=
  Article (title a) (link a) (summary a) (Some category_id) (Some true).

Definition set_fallback_articles (l : list article) (c : category_cfg) : category_cfg :=
  Category (name c) (emoji c) (rss c) (image_keywords c) (fallback_images c) l.

(** [self.current_article.update(...)]: the object the slot points to is
    changed where it lives. *)
Definition update_current (f : article → article) : M unit :=
  st <- get_state ;;
  match current_article st with
  | None => raise AttributeError
  | Some (Fresh a) => set_current_article (Some (Fresh (f a)))
  | Some (Shared k i) =>
      set_categories
        (dict_alter (λ c, set_fallback_articles (alter f i (fallback_articles c)) c)
                    k (categories st))
  end.

Definition use_fallback_article (category_id : string) : M unit :=
  st <- get_state ;;
  category <- subscript (dict_get (categories st) category_id) KeyError ;;
  i <- random_index (length (fallback_articles category)) ;;
  set_current_article (Some (Shared category_id i)) ;;;
  update_current (mark_fallback category_id).

(** ** [extract_image_from_article] *)

(** The test of the loop over the [<meta>] tags. *)
Definition is_image_meta (meta : meta_tag) : bool :=
  match m_property meta with
  | Some p => Py.mem p ["og:image"; "twitter:image"]
  | None => false
  end
  && Py.startswith (default "" (m_content meta)) "http".

Fixpoint find_meta_image (metas : list meta_tag) : option string :=
  match metas with
  | [] => None
  | meta :: rest =>
      if is_image_meta meta then m_content meta else find_meta_image rest
  end.

Definition image_like (src : string) : bool :=
  Py.startswith src "http" &&
  Py.any (λ ext, Py.contains ext src) [".jpg"; ".jpeg"; ".png"].

Fixpoint find_inline_image (srcs : list string) : option string :=
  match srcs with
  | [] => None
  | src :: rest => if image_like src then Some src else find_inline_image rest
  end.

(** [self.current_article[...]] and [.get(...)] read the object in the slot. *)
Definition read_current : M article :=
  st <- get_state ;;
  subscript (current st) KeyError.

Definition extract_image_from_article : M (option string) :=
  st <- get_state ;;
  match current st with
  | None => ret None
  | Some a =>
      match link a with
      | None => ret None
      | Some l =>
          if negb (Py.truthy l) then ret None
          else
            try_except
              (response <- http_get l ;;
               match find_meta_image (meta_tags response) with
               | Some content => ret (Some content)
               | None => ret (find_inline_image (img_srcs response))
               end)
              (λ _, ret None)
      end
  end.

(** ** [get_image_with_fallback] *)

(** Step 1 of the chain: the image of the article, unless it is a fallback. *)
Definition article_image (a : article) : M (option string) :=
  if negb (default true (is_fallback a)) then
    try_except
      (img <- extract_image_from_article ;;
       ret (match img with
            | Some url => if Py.truthy url then Some url else None
            | None => None
            end))
      (λ _, ret None)
  else ret None.

Definition unsplash_url (keyword : string) : string :=
  "https://source.unsplash.com/800x600/?" +:+ keyword.

(** Step 2 of the chain: the stock image, when its probe answers 200. *)
Definition unsplash_image (c : category_cfg) : M (option string) :=
  try_except
    (keyword <- random_choice (image_keywords c) ;;
     let url := unsplash_url keyword in
     status <- http_head url ;;
     if Nat.eqb status 200 then ret (Some url) else ret None)
    (λ _, ret None).

Definition get_image_with_fallback : M string :=
  st <- get_state ;;
  match current st with
  | None =>
      c <- random_choice (map snd (categories st)) ;;
      subscript (fallback_images c !! 0) IndexError
  | Some a =>
      cid <- subscript (category a) KeyError ;;
      c <- subscript (dict_get (categories st) cid) KeyError ;;
      img <- article_image a ;;
      match img with
      | Some url => ret url
      | None =>
          stock <- unsplash_image c ;;
          match stock with
          | Some url => ret url
          | None => random_choice (fallback_images c)
          end
      end
  end.

(** ** [send_news_message] *)

Definition send_news_message (update : update_obj) (image_url caption : string)
    (markup : option keyboard) : M unit :=
  try_except
    (if isinstance_Update update
     then send_with_retry (Call reply_photo caption (Some image_url) markup Markdown)
     else send_with_retry (Call edit_message_media caption (Some image_url) markup Markdown))
    (λ _, send_with_retry
            (Call (if isinstance_Update update then reply_text else edit_message_text)
                  caption None markup Markdown)).

(** ** [process_category] *)

Definition post_text (c : category_cfg) (a : article) : string :=
  emoji c +:+ " *" +:+ name c +:+ "*" +:+ Py.nl +:+ Py.nl +:+
  "📌 *" +:+ title a +:+ "*" +:+ Py.nl +:+ Py.nl +:+
  summary a.

Definition action_keyboard (category_id : string) : keyboard :=
  [ [("✅ Опубликовать", "publish");
     ("🔄 Еще новость", "category_" +:+ category_id)];
    [("💻 Технологии", "category_tech");
     ("🏛 Политика", "category_politics")] ].

(** The first two statements of the handler: a fresh article, or else a
    fallback one. *)
Definition resolve_article (category_id : string) : M unit :=
  success <- try_get_fresh_article category_id ;;
  if negb success then use_fallback_article category_id else ret tt.

(** The body of the [try] of [process_category]. *)
Definition preview (update : update_obj) (category_id : string) : M unit :=
  resolve_article category_id ;;;
  image_url <- get_image_with_fallback ;;
  st <- get_state ;;
  c <- subscript (dict_get (categories st) category_id) KeyError ;;
  a <- read_current ;;
  send_news_message update image_url (post_text c a)
    (Some (action_keyboard category_id)).

Definition critical_notice : string :=
  "📌 *Технологии*" +:+ Py.nl +:+ Py.nl +:+
  "🔧 Бот временно использует резервные новости. Попробуйте позже!".

(** The handler calls itself from its [except] clause; [fuel] bounds the
    depth of these calls, and [OutOfFuel] is a run that needs more. *)
Fixpoint process_category (fuel : nat) (update : update_obj) (category_id : string) : M unit :=
  match fuel with
  | 0 => λ st, (OutOfFuel, st)
  | S fuel' =>
      try_except (preview update category_id)
        (λ _,
           send_with_retry (Call reply_text critical_notice None None Markdown) ;;;
           use_fallback_article "tech" ;;;
           process_category fuel' update "tech")
  end.

(** ** [random_news], [handle_message] *)

Definition random_news (fuel : nat) (update : update_obj) : M unit :=
  st <- get_state ;;
  category_id <- random_choice (map fst (categories st)) ;;
  process_category fuel update category_id.

Definition handle_message (fuel : nat) (text : string) : M unit :=
  if String.eqb text "📰 Случайная новость" then random_news fuel AnUpdate
  else if String.eqb text "💻 Технологии" then process_category fuel AnUpdate "tech"
  else if String.eqb text "🏛 Политика" then process_category fuel AnUpdate "politics"
  else if String.eqb text "ℹ️ Помощь" then help_command
  else send_with_retry
         (Call reply_text "Используйте кнопки меню для навигации" None None None).

(** ** [publish_article] *)

Definition publish_article : M unit :=
  st <- get_state ;;
  match current st with
  | None =>
      send_with_retry (Call edit_message_text "⚠️ Нет данных для публикации" None None None)
  | Some a0 =>
      try_except
        (cid <- subscript (category a0) KeyError ;;
         c <- subscript (dict_get (categories st) cid) KeyError ;;
         image_url <- get_image_with_fallback ;;
         a <- read_current ;;
         st1 <- get_state ;;
         send_with_retry
           (Call (send_photo (channel_id st1)) (post_text c a) (Some image_url) None Markdown) ;;;
         send_with_retry
           (Call edit_message_text
              ("✅ *Новость опубликована в канале!*" +:+ Py.nl +:+ Py.nl +:+
               "Категория: " +:+ name c)
              None None Markdown) ;;;
         set_current_article None)
        (λ _,
           send_with_retry
             (Call edit_message_text
                "⚠️ Не удалось опубликовать новость. Попробуйте позже." None None None))
  end.

(** ** [handle_callback] *)

Definition handle_callback (fuel : nat) (data : string) : M unit :=
  invoke (Call answer "" None None None) ;;;
  try_except
    (if Py.startswith data "category_" then
       category_id <- subscript (Py.split "_"%char data !! 1) IndexError ;;
       process_category fuel ACallbackQuery category_id
     else if String.eqb data "publish" then publish_article
     else ret tt)
    (λ _,
       send_with_retry
         (Call edit_message_text "⚠️ Произошла ошибка. Попробуйте еще раз." None None None)).

(** ** The dispatch of [run] *)

Inductive interaction :=
| CmdStart
| CmdHelp
| CmdRandom
| Message (text : string)          (* a text that is not a command *)
| CallbackQuery (data : string).

Definition handle (fuel : nat) (i : interaction) : M unit :=
  match i with
  | CmdStart => start
  | CmdHelp => help_command
  | CmdRandom => random_news fuel AnUpdate
  | Message text => handle_message fuel text
  | CallbackQuery data => handle_callback fuel data
  end.

(** A sequence of interactions, one after the other. An exception that
    leaves a handler is the dispatcher's to log; the next interaction
    starts from the state it left. [None]: some handler ran out of fuel. *)
Fixpoint run (fuel : nat) (inputs : list interaction) (st : state) : option state :=
  match inputs with
  | [] => Some st
  | i :: rest =>
      match handle fuel i st with
      | (OutOfFuel, _) => None
      | (_, st') => run fuel rest st'
      end
  end.

End Bot.

(** ** [__init__] *)

Definition tech : category_cfg :=
  Category "💻 Технологии" "💻"
    [ "https://habr.com/ru/rss/hub/python/";
      "https://3dnews.ru/bitrix/rss.php";
      "https://www.ixbt.com/export/news.rss";
      "https://vc.ru/rss" ]
    [ "технологии"; "компьютер"; "робот" ]
    [ "https://images.unsplash.com/photo-1517430816045-df4b7de11d1d";
      "https://images.unsplash.com/photo-1558494949-ef010cbdcc31" ]
    [ Article "Новые технологии в IT" None
        "Современные технологии развиваются быстрыми темпами..." None None;
      Article "Искусственный интеллект" None
        "ИИ меняет наш подход к решению задач..." None None ].

Definition politics : category_cfg :=
  Category "🏛 Политика" "🏛"
    [ "https://lenta.ru/rss/news";
      "https://www.kommersant.ru/RSS/news.xml";
      "https://ria.ru/export/rss2/politics/index.xml";
      "https://tass.ru/rss/v2.xml" ]
    [ "политика"; "кремль"; "правительство" ]
    [ "https://images.unsplash.com/photo-1562601579-599dec564e06";
      "https://images.unsplash.com/photo-1580130732478-4e339fb33746" ]
    [ Article "Политические новости" None
        "Важные политические события происходят..." None None;
      Article "Международные отношения" None
        "Страны обсуждают новые соглашения..." None None ].

Definition initial_categories : catalogue :=
  [ ("tech", tech); ("politics", politics) ].

(** The bot as [__init__] leaves it; [channel] is [TELEGRAM_CHANNEL_ID]. *)
Definition init (channel : option string) : state :=
  State initial_categories None channel 0 [].

(** * Properties *)

(** ** Strings *)

Lemma length_slice_to n s :
  String.length (Py.slice_to n s) = n `min` String.length s.
Proof.
  revert s; induction n as [|n IH]; intros [|c s]; simpl; auto.
Qed.

Lemma length_append s t :
  String.length (s +:+ t) = String.length s + String.length t.
Proof. induction s; simpl; auto. Qed.

Lemma slice_to_append n s t :
  n ≤ String.length s → Py.slice_to n (s +:+ t) = Py.slice_to n s.
Proof.
  revert s; induction n as [|n IH]; intros [|c s] Hn; simpl in *; try lia.
  - by destruct t.
  - done.
  - f_equal. apply IH. lia.
Qed.

Lemma slice_to_idemp n s : Py.slice_to n (Py.slice_to n s) = Py.slice_to n s.
Proof. revert s; induction n as [|n IH]; intros [|c s]; simpl; f_equal; auto. Qed.

Lemma substring_append_r s t :
  String.substring (String.length s) (String.length t) (s +:+ t) = t.
Proof.
  induction s as [|c s IH]; simpl; auto.
  induction t as [|d t IHt]; simpl; [done | by f_equal].
Qed.

Lemma endswith_append s t : Py.endswith (s +:+ t) t = true.
Proof.
  unfold Py.endswith. rewrite length_append.
  replace (String.length s + String.length t - String.length t) with (String.length s) by lia.
  rewrite substring_append_r, String.eqb_refl, andb_true_r.
  apply Nat.leb_le. lia.
Qed.

(** ** C2: summary truncation *)

Lemma truncate_summary_long s :
  250 < String.length s →
  truncate_summary s = Py.slice_to 250 s +:+ "...".
Proof.
  intros H. unfold truncate_summary.
  destruct (Nat.ltb_spec 250 (String.length s)); [done | lia].
Qed.

Lemma truncate_summary_short s :
  String.length s ≤ 250 → truncate_summary s = s.
Proof.
  intros H. unfold truncate_summary.
  destruct (Nat.ltb_spec 250 (String.length s)); [lia | done].
Qed.

(** ** The world moves, the bot stays

    [world_step n evs st]: [n] more calls to the outside world and the
    events [evs], the fields of the bot untouched. *)

Definition world_step (n : nat) (evs : list event) (st : state) : state :=
  State (categories st) (current_article st) (channel_id st)
        (n + clock st) (trace st ++ evs).

Lemma world_step_0 st : world_step 0 [] st = st.
Proof. destruct st; unfold world_step; simpl. by rewrite app_nil_r. Qed.

Lemma world_step_step n m evs evs' st :
  world_step n evs (world_step m evs' st) = world_step (n + m) (evs' ++ evs) st.
Proof. unfold world_step; simpl. f_equal; [lia | by rewrite app_assoc]. Qed.

(** A computation that only talks to the world. *)
Definition frames {A} (m : M A) : Prop :=
  ∀ st, ∃ n evs, (m st).2 = world_step n evs st.

(** A computation that never needs fuel. *)
Definition fuel_free {A} (m : M A) : Prop :=
  ∀ st, (m st).1 ≠ OutOfFuel.

Lemma run_bind {A B} (m : M A) (k : A → M B) st a st' :
  m st = (Ret a, st') → bind m k st = k a st'.
Proof. intros H. unfold bind. by rewrite H. Qed.

Lemma run_bind_raise {A B} (m : M A) (k : A → M B) st e st' :
  m st = (Raise e, st') → bind m k st = (Raise e, st').
Proof. intros H. unfold bind. by rewrite H. Qed.

Section Frames.

Context {A B : Type}.

Lemma frames_ret (a : A) : frames (ret a).
Proof. intros st. exists 0, []. by rewrite world_step_0. Qed.

Lemma frames_raise (e : exn) : frames (@raise A e).
Proof. intros st. exists 0, []. by rewrite world_step_0. Qed.

Lemma frames_subscript (o : option A) (e : exn) : frames (subscript o e).
Proof. destruct o; [apply frames_ret | apply frames_raise]. Qed.

Lemma frames_bind (m : M A) (k : A → M B) :
  frames m → (∀ a, frames (k a)) → frames (bind m k).
Proof.
  intros Hm Hk st. unfold bind.
  destruct (Hm st) as (n & evs & Hst).
  destruct (m st) as [[a|e|] st1]; simpl in *; subst; eauto.
  destruct (Hk a (world_step n evs st)) as (n' & evs' & ->).
  rewrite world_step_step. eauto.
Qed.

Lemma frames_try (m : M A) (h : exn → M A) :
  frames m → (∀ e, frames (h e)) → frames (try_except m h).
Proof.
  intros Hm Hh st. unfold try_except.
  destruct (Hm st) as (n & evs & Hst).
  destruct (m st) as [[a|e|] st1]; simpl in *; subst; eauto.
  destruct (Hh e (world_step n evs st)) as (n' & evs' & ->).
  rewrite world_step_step. eauto.
Qed.

Lemma fuel_free_ret (a : A) : fuel_free (ret a).
Proof. by intros st. Qed.

Lemma fuel_free_raise (e : exn) : fuel_free (@raise A e).
Proof. by intros st. Qed.

Lemma fuel_free_subscript (o : option A) (e : exn) : fuel_free (subscript o e).
Proof. destruct o; [apply fuel_free_ret | apply fuel_free_raise]. Qed.

Lemma fuel_free_bind (m : M A) (k : A → M B) :
  fuel_free m → (∀ a, fuel_free (k a)) → fuel_free (bind m k).
Proof.
  intros Hm Hk st. unfold bind. specialize (Hm st).
  destruct (m st) as [[a|e|] st1]; simpl in *; try done. apply Hk.
Qed.

Lemma fuel_free_try (m : M A) (h : exn → M A) :
  fuel_free m → (∀ e, fuel_free (h e)) → fuel_free (try_except m h).
Proof.
  intros Hm Hh st. unfold try_except. specialize (Hm st).
  destruct (m st) as [[a|e|] st1]; simpl in *; try done. apply Hh.
Qed.

End Frames.

Lemma frames_get_state : frames get_state.
Proof. intros st. exists 0, []. by rewrite world_step_0. Qed.

Lemma frames_emit ev : frames (emit ev).
Proof. intros st. exists 0, [ev]. done. Qed.

Lemma frames_advance : frames advance.
Proof. intros st. exists 1, []. unfold world_step, advance; simpl. by rewrite app_nil_r. Qed.

Lemma fuel_free_get_state : fuel_free get_state.
Proof. by intros st. Qed.

Lemma fuel_free_emit ev : fuel_free (emit ev).
Proof. by intros st. Qed.

Lemma fuel_free_advance : fuel_free advance.
Proof. by intros st. Qed.

Lemma fuel_free_set_current_article r : fuel_free (set_current_article r).
Proof. by intros st. Qed.

Lemma fuel_free_set_categories c : fuel_free (set_categories c).
Proof. by intros st. Qed.

Create HintDb frames.
#[export] Hint Resolve frames_ret frames_raise frames_subscript frames_get_state
  frames_emit frames_advance : frames.
#[export] Hint Resolve fuel_free_ret fuel_free_raise fuel_free_subscript
  fuel_free_get_state fuel_free_emit fuel_free_advance
  fuel_free_set_current_article fuel_free_set_categories : frames.

(** Walks through a computation written with [bind], [try_except] and
    pattern matching, leaving the calls it does not know. *)
Ltac frame_step :=
  first
    [ solve [eauto with frames]
    | apply frames_bind; [| intros ?]
    | apply frames_try; [| intros ?]
    | apply fuel_free_bind; [| intros ?]
    | apply fuel_free_try; [| intros ?]
    | match goal with
      | |- context [match ?x with _ => _ end] => destruct x
      end ].
Ltac frame := repeat frame_step.

Section WorldOnly.

Variable E : env.

Lemma frames_http_get url : frames (http_get E url).
Proof. unfold http_get. frame. Qed.

Lemma frames_http_head url : frames (http_head E url).
Proof. unfold http_head. frame. Qed.

Lemma frames_raise_for_status r : frames (raise_for_status r).
Proof. unfold raise_for_status. frame. Qed.

Lemma frames_random_index n : frames (random_index E n).
Proof. unfold random_index. frame. Qed.

Lemma frames_random_choice {A} (l : list A) : frames (random_choice E l).
Proof. unfold random_choice. frame. Qed.

Lemma frames_invoke c : frames (invoke E c).
Proof. unfold invoke. frame. Qed.

Lemma frames_sleep n : frames (sleep n).
Proof. unfold sleep. frame. Qed.

Lemma frames_send_with_retry_loop k a n c : frames (send_with_retry_loop E k a n c).
Proof.
  revert a; induction n as [|n IH]; intros a; simpl;
    eauto using frames_try, frames_bind, frames_invoke, frames_sleep with frames.
  apply frames_try; [apply frames_invoke|]. intros e.
  destruct (Nat.eqb a (k - 1)); eauto using frames_bind, frames_sleep with frames.
Qed.

Lemma frames_send_with_retry c : frames (send_with_retry E c).
Proof. apply frames_send_with_retry_loop. Qed.

Hint Resolve frames_http_get frames_http_head frames_random_choice
  frames_send_with_retry : frames.

Lemma frames_extract_image_from_article : frames (extract_image_from_article E).
Proof. unfold extract_image_from_article. frame. Qed.

Lemma frames_article_image a : frames (article_image E a).
Proof.
  unfold article_image. destruct (negb _); [|frame].
  apply frames_try; [|frame].
  apply frames_bind; [apply frames_extract_image_from_article | frame].
Qed.

Lemma frames_unsplash_image c : frames (unsplash_image E c).
Proof. unfold unsplash_image. frame. Qed.

Hint Resolve frames_article_image frames_unsplash_image : frames.

Lemma frames_get_image_with_fallback : frames (get_image_with_fallback E).
Proof. unfold get_image_with_fallback. frame. Qed.

Lemma frames_send_news_message u img cap mk : frames (send_news_message E u img cap mk).
Proof. unfold send_news_message. frame. Qed.

Lemma frames_start : frames (start E).
Proof. apply frames_send_with_retry. Qed.

Lemma frames_help_command : frames (help_command E).
Proof. apply frames_send_with_retry. Qed.

Lemma fuel_free_http_get url : fuel_free (http_get E url).
Proof. unfold http_get. frame. Qed.

Lemma fuel_free_http_head url : fuel_free (http_head E url).
Proof. unfold http_head. frame. Qed.

Lemma fuel_free_random_choice {A} (l : list A) : fuel_free (random_choice E l).
Proof. unfold random_choice, random_index. frame. Qed.

Lemma fuel_free_invoke c : fuel_free (invoke E c).
Proof. unfold invoke. frame. Qed.

Lemma fuel_free_send_with_retry_loop k a n c : fuel_free (send_with_retry_loop E k a n c).
Proof.
  revert a; induction n as [|n IH]; intros a; simpl; [frame|].
  apply fuel_free_try; [apply fuel_free_invoke|]. intros e.
  destruct (Nat.eqb a (k - 1)); [frame|].
  apply fuel_free_bind; [unfold sleep; frame | auto].
Qed.

Lemma fuel_free_send_with_retry c : fuel_free (send_with_retry E c).
Proof. apply fuel_free_send_with_retry_loop. Qed.

End WorldOnly.

#[export] Hint Resolve frames_http_get frames_http_head frames_random_index
  frames_random_choice frames_invoke frames_send_with_retry
  frames_extract_image_from_article frames_article_image frames_unsplash_image
  frames_get_image_with_fallback frames_send_news_message
  frames_start frames_help_command : frames.
#[export] Hint Resolve fuel_free_http_get fuel_free_http_head
  fuel_free_random_choice fuel_free_invoke fuel_free_send_with_retry : frames.

(** ** [send_with_retry] in closed form *)

Section Retry.

Variable E : env.

Lemma invoke_run c st :
  invoke E c st =
  (if transport E (clock st) c then Ret tt else Raise TelegramError,
   world_step 1 [EvCall c (transport E (clock st) c)] st).
Proof.
  unfold invoke, bind, get_state, emit, advance, world_step; simpl.
  by destruct (transport E (clock st) c).
Qed.

(** The events of [k] failed attempts followed by one more attempt. *)
Fixpoint attempts (c : call) (k : nat) (last : bool) : list event :=
  match k with
  | 0 => [EvCall c last]
  | S k' => EvCall c false :: EvSleep 1 :: attempts c k' last
  end.

(** At most three attempts, a pause of one second after each failure but
    the last, whose exception is left to the caller. *)
Lemma send_with_retry_run c st :
  let t := clock st in
  send_with_retry E c st =
  if transport E t c then (Ret tt, world_step 1 (attempts c 0 true) st)
  else if transport E (S t) c then (Ret tt, world_step 2 (attempts c 1 true) st)
  else if transport E (S (S t)) c then (Ret tt, world_step 3 (attempts c 2 true) st)
  else (Raise TelegramError, world_step 3 (attempts c 2 false) st).
Proof.
  unfold send_with_retry, max_retries_default; simpl.
  unfold try_except. rewrite invoke_run.
  destruct (transport E (clock st) c) eqn:H0; [done|].
  simpl. unfold bind, sleep, emit; simpl. unfold try_except. rewrite invoke_run; simpl.
  destruct (transport E (S (clock st)) c) eqn:H1.
  { unfold world_step; simpl. by rewrite <- !app_assoc. }
  unfold bind; simpl. unfold try_except. rewrite invoke_run; simpl.
  destruct (transport E (S (S (clock st))) c) eqn:H2.
  { unfold world_step; simpl. by rewrite <- !app_assoc. }
  unfold raise, world_step; simpl. by rewrite <- !app_assoc.
Qed.

(** The attempts made on the transport, in order. *)
Definition calls_of (evs : list event) : list (call * bool) :=
  omap (λ ev, match ev with EvCall c ok => Some (c, ok) | _ => None end) evs.

Lemma calls_of_attempts c k last :
  calls_of (attempts c k last) = replicate k (c, false) ++ [(c, last)].
Proof. induction k as [|k IH]; simpl; [done | by rewrite <- IH]. Qed.

End Retry.

(** ** Scenarios: concrete worlds used as examples *)

Module Scenario.

(** Nothing answers: every request and every transport call raises. *)
Definition down : env :=
  Env (λ _ _, None) (λ _ _, None) (λ _, 0) (λ _ _, false) (λ s, s).

(** The network is down, the transport works. *)
Definition offline : env :=
  Env (λ _ _, None) (λ _ _, None) (λ _, 0) (λ _ _, true) (λ s, s).

(** The transport refuses photos and accepts everything else. *)
Definition no_photo : env :=
  Env (λ _ _, None) (λ _ _, None) (λ _, 0)
      (λ _ c, match photo c with Some _ => false | None => true end) (λ s, s).

(** Every feed answers 200 with one entry whose summary has 300
    characters; no page and no stock image can be fetched. *)
Definition long_text : string := String.string_of_list_ascii (replicate 300 "a"%char).

Definition live : env :=
  Env (λ _ _, Some (Response 200
                      [Entry (Some "Title") (Some "https://habr.com/p/1") (Some long_text) None] [] []))
      (λ _ _, None) (λ _, 0) (λ _ _, true) (λ s, s).

(** The state after [tech] was asked for with the network down: the
    draft is a fallback article. *)
Definition tech_draft : state :=
  Eval vm_compute in (resolve_article offline "tech" (init None)).2.

(** Every feed answers with one entry whose title has a stray
    underscore; the transport refuses every message whose text has an
    underscore (as a Markdown parser that finds an entity left open
    does) and accepts the others. *)
Definition stray_underscore : env :=
  Env (λ _ _, Some (Response 200
                      [Entry (Some "snake_case") (Some "https://habr.com/p/1")
                             (Some "text") None] [] []))
      (λ _ _, None) (λ _, 0)
      (λ _ c, negb (Py.contains "_" (text c))) (λ s, s).

End Scenario.

(** ** C5: degradation from photo to text *)

Definition photo_call (u : update_obj) (img cap : string) (mk : option keyboard) : call :=
  Call (if isinstance_Update u then reply_photo else edit_message_media)
       cap (Some img) mk Markdown.

Definition text_call (u : update_obj) (cap : string) (mk : option keyboard) : call :=
  Call (if isinstance_Update u then reply_text else edit_message_text)
       cap None mk Markdown.

Definition is_text_attempt (ev : event) : bool :=
  match ev with
  | EvCall c _ => match meth c with reply_text | edit_message_text => true | _ => false end
  | _ => false
  end.

(** How many times a text message was attempted in a run. *)
Definition text_attempts (evs : list event) : nat :=
  length (filter (λ ev, is_text_attempt ev = true) evs).

(** C5, as stated, fails: with a transport that refuses every call, the text
    fallback is attempted three times, not once. *)
Lemma text_fallback_is_retried :
  let st := init None in
  let st' := (send_news_message Scenario.down AnUpdate "http://img" "caption" None st).2 in
  trace st' =
    attempts (photo_call AnUpdate "http://img" "caption" None) 2 false ++
    attempts (text_call AnUpdate "caption" None) 2 false
  ∧ text_attempts (trace st') = 3.
Proof. split; reflexivity. Qed.

(** C5 (amended): when the photo is refused at all three attempts, the
    caption is sent as a text message with the same buttons through the same
    retry wrapper, called once: up to three attempts, the first success ends
    them, and after three failures the exception is left to the caller. *)
Theorem send_news_message_degrades E u img cap mk st :
  let t := clock st in
  let pc := photo_call u img cap mk in
  let tc := text_call u cap mk in
  transport E t pc = false →
  transport E (S t) pc = false →
  transport E (S (S t)) pc = false →
  ∃ (k : nat) (ok : bool),
    k < 3 ∧
    send_news_message E u img cap mk st =
      (if ok then Ret tt else Raise TelegramError,
       world_step (4 + k) (attempts pc 2 false ++ attempts tc k ok) st) ∧
    (∀ j, j < k → transport E (3 + t + j) tc = false) ∧
    transport E (3 + t + k) tc = ok ∧
    (ok = false → k = 2) ∧
    text tc = cap ∧ reply_markup tc = mk.
Proof.
  intros t pc tc H0 H1 H2.
  assert (Hphoto : (if isinstance_Update u
                    then send_with_retry E (Call reply_photo cap (Some img) mk Markdown)
                    else send_with_retry E (Call edit_message_media cap (Some img) mk Markdown)) st
                   = (Raise TelegramError, world_step 3 (attempts pc 2 false) st)).
  { subst pc t. unfold photo_call in *.
    destruct u; simpl in *; rewrite send_with_retry_run, H0, H1, H2; done. }
  unfold send_news_message, try_except. rewrite Hphoto.
  fold (text_call u cap mk). fold tc.
  rewrite send_with_retry_run. simpl clock. fold t.
  assert (A0 : 3 + t + 0 = S (S (S t))) by lia.
  assert (A1 : 3 + t + 1 = S (S (S (S t)))) by lia.
  assert (A2 : 3 + t + 2 = S (S (S (S (S t))))) by lia.
  destruct (transport E (S (S (S t))) tc) eqn:T0.
  { exists 0, true. rewrite world_step_step, A0.
    repeat split; auto; try lia; try done. }
  destruct (transport E (S (S (S (S t)))) tc) eqn:T1.
  { exists 1, true. rewrite world_step_step, A1.
    repeat split; auto; try lia; try done.
    intros j Hj. replace j with 0 by lia. by rewrite A0. }
  assert (Hfail : ∀ j, j < 2 → transport E (3 + t + j) tc = false).
  { intros j Hj. destruct j as [|[|j]]; try lia; by rewrite ?A0, ?A1. }
  destruct (transport E (S (S (S (S (S t))))) tc) eqn:T2.
  { exists 2, true. rewrite world_step_step, A2.
    repeat split; auto; try lia; done. }
  exists 2, false. rewrite world_step_step, A2.
  repeat split; auto; lia.
Qed.

Lemma send_news_message_degrades_witness :
  ∃ (k : nat) (ok : bool),
    k < 3 ∧
    send_news_message Scenario.no_photo AnUpdate "http://img" "caption" None (init None) =
      (if ok then Ret tt else Raise TelegramError,
       world_step (4 + k)
         (attempts (photo_call AnUpdate "http://img" "caption" None) 2 false ++
          attempts (text_call AnUpdate "caption" None) k ok) (init None)) ∧
    (∀ j, j < k →
       transport Scenario.no_photo (3 + 0 + j) (text_call AnUpdate "caption" None) = false) ∧
    transport Scenario.no_photo (3 + 0 + k) (text_call AnUpdate "caption" None) = ok ∧
    (ok = false → k = 2) ∧
    text (text_call AnUpdate "caption" None) = "caption" ∧
    reply_markup (text_call AnUpdate "caption" None) = None.
Proof.
  apply (send_news_message_degrades Scenario.no_photo AnUpdate "http://img" "caption" None
           (init None)); reflexivity.
Defined.

(** ** The catalogue as a dictionary *)

Lemma dict_get_alter_eq f k cats :
  dict_get (dict_alter f k cats) k = f <$> dict_get cats k.
Proof.
  induction cats as [|[k' c] cats IH]; simpl; [done|].
  destruct (String.eqb k k') eqn:Hk; simpl; rewrite Hk; auto.
Qed.

Lemma dict_get_alter_ne f k k' cats :
  k ≠ k' → dict_get (dict_alter f k cats) k' = dict_get cats k'.
Proof.
  intros Hne. induction cats as [|[k0 c] cats IH]; simpl; [done|].
  destruct (String.eqb k k0) eqn:Hk; simpl.
  - apply String.eqb_eq in Hk as <-.
    destruct (String.eqb k' k) eqn:Hk'; [|done].
    apply String.eqb_eq in Hk'. congruence.
  - by rewrite IH.
Qed.

Lemma dict_get_elem_of cats k c :
  dict_get cats k = Some c → (k, c) ∈ cats.
Proof.
  induction cats as [|[k' c'] cats IH]; simpl; [done|].
  destruct (String.eqb k k') eqn:Hk.
  - apply String.eqb_eq in Hk as <-. intros [= ->]. left.
  - intros H. right. auto.
Qed.

Lemma map_fst_dict_alter f k cats : map fst (dict_alter f k cats) = map fst cats.
Proof.
  induction cats as [|[k' c] cats IH]; simpl; [done|].
  destruct (String.eqb k k'); simpl; by rewrite ?IH.
Qed.

(** ** Well-formed catalogues

    What the fallbacks rest on: every category has a fallback article and a
    fallback image, none of them blank. *)

Definition article_wf (a : article) : Prop := title a ≠ "" ∧ summary a ≠ "".

Definition category_wf (c : category_cfg) : Prop :=
  fallback_articles c ≠ [] ∧ Forall article_wf (fallback_articles c) ∧
  fallback_images c ≠ [] ∧ Forall (λ url, url ≠ "") (fallback_images c).

Definition catalogue_wf (cats : catalogue) : Prop :=
  cats ≠ [] ∧ Forall (λ kc, category_wf kc.2) cats.

Lemma initial_categories_wf : catalogue_wf initial_categories.
Proof.
  split; [done|].
  repeat constructor; simpl; try done.
Qed.

Lemma catalogue_wf_get cats k c :
  catalogue_wf cats → dict_get cats k = Some c → category_wf c.
Proof.
  intros [_ Hall] Hget. apply dict_get_elem_of in Hget.
  rewrite Forall_forall in Hall. apply (Hall _ Hget).
Qed.

Lemma article_wf_mark k a : article_wf a → article_wf (mark_fallback k a).
Proof. done. Qed.

Definition mark_at (cid : string) (i : nat) (c : category_cfg) : category_cfg :=
  set_fallback_articles (alter (mark_fallback cid) i (fallback_articles c)) c.

Lemma category_wf_mark_at k i c : category_wf c → category_wf (mark_at k i c).
Proof.
  intros (Hne & Hall & Himg & Hurls). unfold mark_at, category_wf; simpl.
  split_and!; auto.
  - destruct (fallback_articles c); [done|]. by destruct i.
  - rewrite Forall_forall in Hall. apply Forall_forall. intros a Ha.
    apply list_elem_of_lookup in Ha as [j Hj].
    rewrite list_lookup_alter in Hj.
    destruct (decide (i = j)) as [->|Hij].
    + destruct (fallback_articles c !! j) as [a0|] eqn:Hj0; simpl in Hj; [|done].
      injection Hj as <-. apply article_wf_mark, Hall.
      by eapply list_elem_of_lookup_2.
    + apply Hall. by eapply list_elem_of_lookup_2.
Qed.

Lemma catalogue_wf_alter k i cats :
  catalogue_wf cats → catalogue_wf (dict_alter (mark_at k i) k cats).
Proof.
  intros [Hne Hall]. split.
  - destruct cats as [|[k' c] cats]; [done|]. simpl. by destruct (String.eqb k k').
  - induction Hall as [|[k' c] cats Hc Hall IH]; simpl; [constructor|].
    destruct (String.eqb k k'); constructor; simpl; auto using category_wf_mark_at.
    destruct cats; [constructor|]. apply IH. done.
Qed.

(** ** The article resolver *)

Ltac unfold_feed :=
  unfold try_feed, http_get, raise_for_status, random_choice, random_index,
    getattr, subscript, try_except, bind, get_state, emit, advance,
    set_current_article, ret, raise.

Section Resolver.

Variable E : env.





(** What one feed leaves behind: nothing but events, or a fresh article
    of the category in the slot. *)
Definition fresh_of (cid : string) (a : article) : Prop :=
  category a = Some cid ∧ is_fallback a = Some false ∧ is_Some (link a) ∧
  ∃ clean, summary a = truncate_summary clean.

Lemma try_feed_cases cid url st :
  ∃ b st', try_except (try_feed E cid url) (λ _, ret false) st = (Ret b, st') ∧
    categories st' = categories st ∧ channel_id st' = channel_id st ∧
    if b then ∃ a, current_article st' = Some (Fresh a) ∧ fresh_of cid a
    else current_article st' = current_article st.
Proof.
  unfold_feed. cbn -[Nat.leb Nat.ltb Nat.modulo take].
  repeat (case_match; cbn -[Nat.leb Nat.ltb Nat.modulo take] in *; simplify_eq);
    try (eexists false, _; split_and!; [reflexivity|done..]).
  all: eexists true, _; split_and!; [reflexivity|done..|].
  all: eexists; split; [reflexivity|]; unfold fresh_of; simpl; eauto.
Qed.

Lemma try_feeds_cases cid urls st :
  ∃ b st', try_feeds E cid urls st = (Ret b, st') ∧
    categories st' = categories st ∧ channel_id st' = channel_id st ∧
    if b then ∃ a, current_article st' = Some (Fresh a) ∧ fresh_of cid a
    else current_article st' = current_article st.
Proof.
  revert st. induction urls as [|url urls IH]; intros st; simpl.
  - exists false, st. done.
  - unfold bind.
    destruct (try_feed_cases cid url st) as (b & st1 & -> & Hc & Hch & Hcur).
    destruct b.
    + exists true, st1. done.
    + destruct (IH st1) as (b & st2 & -> & Hc2 & Hch2 & Hcur2).
      exists b, st2. split_and!; try congruence.
      destruct b; [done | congruence].
Qed.

Lemma try_get_fresh_article_cases cid st :
  ∃ b st', try_get_fresh_article E cid st = (Ret b, st') ∧
    categories st' = categories st ∧ channel_id st' = channel_id st ∧
    if b then is_Some (dict_get (categories st) cid) ∧
              ∃ a, current_article st' = Some (Fresh a) ∧ fresh_of cid a
    else current_article st' = current_article st.
Proof.
  unfold try_get_fresh_article, bind, get_state.
  destruct (dict_get (categories st) cid) as [c|] eqn:Hc.
  - destruct (try_feeds_cases cid (rss c) st) as (b & st' & -> & ? & ? & ?).
    exists b, st'. split_and!; auto. destruct b; eauto.
  - exists false, st. done.
Qed.

(** ** [use_fallback_article] in closed form *)

Lemma use_fallback_article_run cid st c :
  dict_get (categories st) cid = Some c →
  fallback_articles c ≠ [] →
  let i := rand E (clock st) mod length (fallback_articles c) in
  use_fallback_article E cid st =
    (Ret tt,
     State (dict_alter (mark_at cid i) cid (categories st))
           (Some (Shared cid i)) (channel_id st) (S (clock st)) (trace st)).
Proof.
  intros Hc Hne. unfold use_fallback_article, bind, get_state, subscript.
  rewrite Hc. unfold ret at 1. unfold random_index, bind, get_state.
  destruct (length (fallback_articles c)) as [|n] eqn:Hl.
  { by apply length_zero_iff_nil in Hl. }
  rewrite <- Hl. reflexivity.
Qed.

Lemma use_fallback_article_undefined cid st :
  dict_get (categories st) cid = None →
  use_fallback_article E cid st = (Raise KeyError, st).
Proof.
  intros Hc. unfold use_fallback_article, bind, get_state, subscript.
  by rewrite Hc.
Qed.

End Resolver.

(** ** C1: total fallback coverage *)

Lemma lookup_mod_is_Some {A} (l : list A) (r : nat) :
  l ≠ [] → is_Some (l !! (r mod length l)).
Proof.
  intros Hne. apply lookup_lt_is_Some. apply Nat.mod_upper_bound.
  destruct l; [done | simpl; lia].
Qed.

Lemma current_after_fallback cats cid c i a ch t tr :
  dict_get cats cid = Some c →
  fallback_articles c !! i = Some a →
  current (State (dict_alter (mark_at cid i) cid cats) (Some (Shared cid i)) ch t tr)
  = Some (mark_fallback cid a).
Proof.
  intros Hc Ha. unfold current; simpl.
  rewrite dict_get_alter_eq, Hc. simpl.
  by rewrite list_lookup_alter_eq, Ha.
Qed.




(** The scenario of the specification: all four feeds of [tech] answer 500,
    and the draft is the first record of the fallback list of [tech]. *)
Example tech_feeds_500 :
  let E := Env (λ _ _, Some (Response 500 [] [] [])) (λ _ _, None) (λ _, 0)
               (λ _ _, true) (λ s, s) in
  current (resolve_article E "tech" (init None)).2 =
    Some (Article "Новые технологии в IT" None
            "Современные технологии развиваются быстрыми темпами..."
            (Some "tech") (Some true)).
Proof. reflexivity. Qed.

(** ** C2: the stored summary *)

Lemma truncate_summary_spec clean_text :
  (250 < String.length clean_text →
     String.length (truncate_summary clean_text) = 253 ∧
     Py.endswith (truncate_summary clean_text) "..." = true ∧
     Py.slice_to 250 (truncate_summary clean_text) = Py.slice_to 250 clean_text) ∧
  (String.length clean_text ≤ 250 → truncate_summary clean_text = clean_text).
Proof.
  split; [|apply truncate_summary_short].
  intros Hlong. rewrite truncate_summary_long by done. split_and!.
  - rewrite length_append, length_slice_to.
    change (String.length "...") with 3. lia.
  - apply endswith_append.
  - rewrite slice_to_append, slice_to_idemp; [done|].
    rewrite length_slice_to. lia.
Qed.

(** C2: when a feed yields an article, the summary stored in the draft is
    the cleaned text of the chosen entry (one of the first ten), cut as
    follows: a text of more than 250 characters is stored as its first 250
    characters followed by the three characters of the ellipsis, 253 in all;
    a text of at most 250 characters is stored unchanged. *)
Theorem stored_summary_truncated E cid url st st' :
  try_feed E cid url st = (Ret true, st') →
  ∃ r entry a,
    session_get E (clock st) url = Some r ∧
    entry ∈ take 10 (feed_entries r) ∧
    current st' = Some a ∧
    let clean_text := get_text E (raw_summary entry) in
    (250 < String.length clean_text →
       String.length (summary a) = 253 ∧
       Py.endswith (summary a) "..." = true ∧
       Py.slice_to 250 (summary a) = Py.slice_to 250 clean_text) ∧
    (String.length clean_text ≤ 250 → summary a = clean_text).
Proof.
  unfold_feed. cbn -[Nat.leb Nat.ltb Nat.modulo take Py.slice_to].
  repeat (case_match; cbn -[Nat.leb Nat.ltb Nat.modulo take Py.slice_to] in *; simplify_eq);
    intros [= <-].
  eexists _, _, _. split; [done|].
  split; [|split; [reflexivity | apply truncate_summary_spec]].
  match goal with H : feed_entries _ = _ |- _ => rewrite H end.
  by eapply list_elem_of_lookup_2.
Qed.

Lemma stored_summary_truncated_witness :
  ∃ r entry a,
    session_get Scenario.live (clock (init None)) "https://vc.ru/rss" = Some r ∧
    entry ∈ take 10 (feed_entries r) ∧
    current (try_feed Scenario.live "tech" "https://vc.ru/rss" (init None)).2 = Some a ∧
    let clean_text := get_text Scenario.live (raw_summary entry) in
    (250 < String.length clean_text →
       String.length (summary a) = 253 ∧
       Py.endswith (summary a) "..." = true ∧
       Py.slice_to 250 (summary a) = Py.slice_to 250 clean_text) ∧
    (String.length clean_text ≤ 250 → summary a = clean_text).
Proof.
  apply (stored_summary_truncated Scenario.live "tech" "https://vc.ru/rss" (init None)).
  vm_compute. reflexivity.
Defined.

Example truncate_300 :
  String.length (truncate_summary Scenario.long_text) = 253 ∧
  truncate_summary "short" = "short".
Proof. split; reflexivity. Qed.

(** ** The state invariant *)

(** The slot is empty, or it points to an article whose category is a key
    of the catalogue. *)
Definition current_ok (st : state) : Prop :=
  match current_article st with
  | None => True
  | Some r =>
      ∃ a cid c, deref (categories st) r = Some a ∧ category a = Some cid ∧
                 dict_get (categories st) cid = Some c
  end.

Definition state_ok (st : state) : Prop :=
  catalogue_wf (categories st) ∧ current_ok st.

Lemma init_ok channel : state_ok (init channel).
Proof. split; [apply initial_categories_wf | done]. Qed.

Lemma world_step_ok n evs st : state_ok st → state_ok (world_step n evs st).
Proof. done. Qed.

(** ** The image resolver *)

Section Images.

Variable E : env.

Lemma random_choice_run {A} (l : list A) st :
  l ≠ [] →
  ∃ x, random_choice E l st = (Ret x, world_step 1 [] st) ∧
       l !! (rand E (clock st) mod length l) = Some x.
Proof.
  intros Hne.
  destruct (lookup_mod_is_Some l (rand E (clock st)) Hne) as [x Hx].
  exists x. split; [|done].
  unfold random_choice, random_index, bind, get_state.
  destruct (length l) as [|n] eqn:Hl.
  { by apply length_zero_iff_nil in Hl. }
  rewrite <- Hl in Hx |- *. unfold advance, ret; simpl. rewrite Hx. simpl.
  unfold ret, world_step. by rewrite app_nil_r.
Qed.

(** Step 1 never raises, and what it yields is not blank. *)
Lemma article_image_ret a st :
  ∃ img st1, article_image E a st = (Ret img, st1) ∧
             ∀ url, img = Some url → url ≠ "".
Proof.
  unfold article_image. destruct (negb _).
  - unfold try_except, bind.
    destruct (extract_image_from_article E st) as [[[url|]|e|] st1] eqn:Hx.
    + destruct url as [|ch url]; simpl; eexists _, _; (split; [reflexivity|]);
        intros u [= <-]; done.
    + eexists _, _; split; [reflexivity|]. done.
    + eexists _, _; split; [reflexivity|]. done.
    + exfalso. revert Hx.
      unfold extract_image_from_article, bind, get_state, try_except, http_get,
        bind, get_state, emit, advance, subscript, ret, raise.
      repeat (case_match; simpl; try done).
  - eexists _, _; split; [reflexivity|]. done.
Qed.

(** Step 2 never raises, and yields the stock URL only when its probe,
    made right after the keyword is drawn, answers 200. *)
Lemma unsplash_image_ret c st :
  ∃ stock st2, unsplash_image E c st = (Ret stock, st2) ∧
    ∀ url, stock = Some url →
      url ≠ "" ∧ session_head E (S (clock st)) url = Some 200.
Proof.
  unfold unsplash_image, try_except, random_choice, random_index, http_head,
    bind, get_state, emit, advance, subscript, ret, raise.
  cbn -[Nat.modulo Nat.eqb].
  repeat (case_match; cbn -[Nat.modulo Nat.eqb] in *; simplify_eq);
    eexists _, _; (split; [reflexivity|]); intros u [= <-].
  split; [done|].
  match goal with H : Nat.eqb _ 200 = true |- _ => apply Nat.eqb_eq in H as -> end.
  done.
Qed.

(** C3: image resolution returns a URL that is not blank. In the run
    where the article yields no image (step 1) and the probe of the stock
    image does not answer 200, the URL is the entry of the fallback image
    list of the draft's category at the index the random generator
    draws. *)
Theorem get_image_with_fallback_total st :
  state_ok st →
  ∃ url st',
    get_image_with_fallback E st = (Ret url, st') ∧ url ≠ "" ∧
    ∀ a cid c st1,
      current st = Some a → category a = Some cid →
      dict_get (categories st) cid = Some c →
      article_image E a st = (Ret None, st1) →
      (∀ u, session_head E (S (clock st1)) u ≠ Some 200) →
      url ∈ fallback_images c ∧
      ∃ t, fallback_images c !! (rand E t mod length (fallback_images c)) = Some url.
Proof.
  intros [Hwf Hcur]. unfold get_image_with_fallback, bind, get_state.
  unfold current_ok in Hcur. unfold current at 1.
  destruct (current_article st) as [r|] eqn:Hr; simpl.
  - destruct Hcur as (a & cid & c & Ha & Hcid & Hc).
    rewrite Ha, Hcid. simpl. unfold ret at 1. rewrite Hc. simpl. unfold ret at 1.
    destruct (catalogue_wf_get _ _ _ Hwf Hc) as (_ & _ & Hne & Hurls).
    rewrite Forall_forall in Hurls.
    destruct (article_image_ret a st) as (img & st1 & Himg & Himg_ok).
    rewrite Himg. destruct img as [url|].
    { exists url, st1. split_and!; [done | by apply Himg_ok |].
      intros a' cid' c' st1' Ha'. unfold current in Ha'. rewrite Hr in Ha'.
      simpl in Ha'. rewrite Ha in Ha'. injection Ha' as <-.
      intros _ _ Hnone. congruence. }
    destruct (unsplash_image_ret c st1) as (stock & st2 & Hstock & Hstock_ok).
    rewrite Hstock. destruct stock as [url|].
    { exists url, st2. destruct (Hstock_ok url eq_refl) as [Hu H200].
      split_and!; [done..|].
      intros a' cid' c' st1' Ha'. unfold current in Ha'. rewrite Hr in Ha'.
      simpl in Ha'. rewrite Ha in Ha'. injection Ha' as <-.
      intros _ _ Hnone Hprobe. rewrite Himg in Hnone. injection Hnone as <-.
      by destruct (Hprobe url). }
    destruct (random_choice_run (fallback_images c) st2 Hne) as (url & -> & Hurl).
    exists url. eexists. split_and!; [done | |].
    { apply Hurls. by eapply list_elem_of_lookup_2. }
    intros a' cid' c' st1' Ha'. unfold current in Ha'. rewrite Hr in Ha'.
    simpl in Ha'. rewrite Ha in Ha'. injection Ha' as <-.
    intros Hcid' Hc' _ _.
    assert (c' = c) as -> by congruence.
    split; [by eapply list_elem_of_lookup_2 | eauto].
  - destruct Hwf as [Hne Hall].
    assert (Hne' : map snd (categories st) ≠ []) by by destruct (categories st).
    destruct (random_choice_run (map snd (categories st)) st Hne') as (c & -> & Hc).
    assert (Hcwf : category_wf c).
    { apply list_elem_of_lookup_2, list_elem_of_fmap in Hc as ([k c'] & -> & Hin).
      rewrite Forall_forall in Hall. apply (Hall _ Hin). }
    destruct Hcwf as (_ & _ & Himgs & Hurls).
    destruct (fallback_images c) as [|url urls] eqn:Hl; [done|]. simpl.
    exists url. eexists. split_and!; [done | by inversion Hurls |].
    intros a cid c' st1 Ha. unfold current in Ha. by rewrite Hr in Ha.
Qed.

End Images.

(** The resolver returns normally, and what it returns is not blank. *)
Lemma get_image_with_fallback_ret E st :
  state_ok st →
  ∃ url st', get_image_with_fallback E st = (Ret url, st') ∧ url ≠ "".
Proof.
  intros [Hwf Hcur]. unfold get_image_with_fallback, bind, get_state.
  unfold current_ok in Hcur. unfold current at 1.
  destruct (current_article st) as [r|] eqn:Hr; simpl.
  - destruct Hcur as (a & cid & c & Ha & Hcid & Hc).
    rewrite Ha, Hcid. simpl. unfold ret at 1. rewrite Hc. simpl. unfold ret at 1.
    destruct (catalogue_wf_get _ _ _ Hwf Hc) as (_ & _ & Hne & Hurls).
    rewrite Forall_forall in Hurls.
    destruct (article_image_ret E a st) as (img & st1 & Himg & Himg_ok).
    rewrite Himg. destruct img as [url|]; [by eauto|].
    destruct (unsplash_image_ret E c st1) as (stock & st2 & Hstock & Hstock_ok).
    rewrite Hstock. destruct stock as [url|].
    { exists url, st2. split; [done|]. by destruct (Hstock_ok url eq_refl). }
    destruct (random_choice_run E (fallback_images c) st2 Hne) as (url & -> & Hurl).
    exists url. eexists. split; [done|]. apply Hurls. by eapply list_elem_of_lookup_2.
  - destruct Hwf as [Hne Hall].
    assert (Hne' : map snd (categories st) ≠ []) by by destruct (categories st).
    destruct (random_choice_run E (map snd (categories st)) st Hne') as (c & -> & Hc).
    assert (Hcwf : category_wf c).
    { apply list_elem_of_lookup_2, list_elem_of_fmap in Hc as ([k c'] & -> & Hin).
      rewrite Forall_forall in Hall. apply (Hall _ Hin). }
    destruct Hcwf as (_ & _ & Himgs & Hurls).
    destruct (fallback_images c) as [|url urls] eqn:Hl; [done|]. simpl.
    exists url. eexists. split; [done | by inversion Hurls].
Qed.

Lemma tech_draft_ok : state_ok Scenario.tech_draft.
Proof.
  split.
  - split; [discriminate|]. repeat constructor; discriminate.
  - eexists _, _, _. split_and!; reflexivity.
Qed.

Lemma get_image_with_fallback_total_witness :
  ∃ url st',
    get_image_with_fallback Scenario.offline Scenario.tech_draft = (Ret url, st') ∧
    url ≠ "" ∧
    ∀ a cid c st1,
      current Scenario.tech_draft = Some a → category a = Some cid →
      dict_get (categories Scenario.tech_draft) cid = Some c →
      article_image Scenario.offline a Scenario.tech_draft = (Ret None, st1) →
      (∀ u, session_head Scenario.offline (S (clock st1)) u ≠ Some 200) →
      url ∈ fallback_images c ∧
      ∃ t, fallback_images c
             !! (rand Scenario.offline t mod length (fallback_images c)) = Some url.
Proof.
  apply (get_image_with_fallback_total Scenario.offline Scenario.tech_draft).
  apply tech_draft_ok.
Defined.

Example tech_draft_image :
  (get_image_with_fallback Scenario.offline Scenario.tech_draft).1 =
    Ret "https://images.unsplash.com/photo-1517430816045-df4b7de11d1d".
Proof. reflexivity. Qed.

(** ** C10: image resolution with an empty slot *)

(** C10: with an empty slot the image resolver returns normally the first
    entry of the fallback image list of the category the random generator
    draws among the values of the catalogue; the draw is its only call to
    the outside world: no request is made. *)
Theorem get_image_with_fallback_no_draft E st :
  catalogue_wf (categories st) →
  current_article st = None →
  ∃ c url,
    map snd (categories st) !! (rand E (clock st) mod length (categories st)) = Some c ∧
    fallback_images c !! 0 = Some url ∧
    get_image_with_fallback E st = (Ret url, world_step 1 [] st).
Proof.
  intros Hwf Hcur. unfold get_image_with_fallback, bind, get_state, current.
  rewrite Hcur. simpl.
  destruct Hwf as [Hne Hall].
  assert (Hne' : map snd (categories st) ≠ []) by by destruct (categories st).
  destruct (random_choice_run E (map snd (categories st)) st Hne') as (c & -> & Hc).
  rewrite length_map in Hc. exists c.
  assert (Hcwf : category_wf c).
  { apply list_elem_of_lookup_2, list_elem_of_fmap in Hc as ([k c'] & -> & Hin).
    rewrite Forall_forall in Hall. apply (Hall _ Hin). }
  destruct Hcwf as (_ & _ & Himgs & _).
  destruct (fallback_images c) as [|url urls] eqn:Hl; [done|].
  exists url. done.
Qed.

Lemma get_image_with_fallback_no_draft_witness :
  ∃ c url,
    map snd (categories (init None))
      !! (rand Scenario.down (clock (init None)) mod length (categories (init None)))
      = Some c ∧
    fallback_images c !! 0 = Some url ∧
    get_image_with_fallback Scenario.down (init None) =
      (Ret url, world_step 1 [] (init None)).
Proof.
  apply (get_image_with_fallback_no_draft Scenario.down (init None)).
  - apply initial_categories_wf.
  - reflexivity.
Defined.

(** Every category can be the one drawn. *)
Example no_draft_second_category :
  let E := Env (λ _ _, None) (λ _ _, None) (λ _, 1) (λ _ _, true) (λ s, s) in
  get_image_with_fallback E (init None) =
    (Ret "https://images.unsplash.com/photo-1562601579-599dec564e06",
     world_step 1 [] (init None)).
Proof. reflexivity. Qed.

(** ** C8: the inline image *)

Definition extensions : list string := [".jpg"; ".jpeg"; ".png"].

Lemma image_like_spec src :
  image_like src = true ↔
  Py.startswith src "http" = true ∧ ∃ ext, ext ∈ extensions ∧ Py.contains ext src = true.
Proof.
  unfold image_like, Py.any. rewrite andb_true_iff, existsb_exists.
  split; intros [H1 (ext & H2 & H3)]; (split; [done|]); exists ext;
    (split; [by apply list_elem_of_In | done]).
Qed.

(** The first element that passes the test, with those skipped before it. *)
Lemma find_inline_image_spec srcs :
  match find_inline_image srcs with
  | Some src =>
      ∃ skipped rest, srcs = skipped ++ src :: rest ∧ image_like src = true ∧
                      Forall (λ x, image_like x = false) skipped
  | None => Forall (λ x, image_like x = false) srcs
  end.
Proof.
  induction srcs as [|x srcs IH]; simpl; [constructor|].
  destruct (image_like x) eqn:Hx.
  - exists [], srcs. by repeat split.
  - destruct (find_inline_image srcs) as [src|].
    + destruct IH as (skipped & rest & -> & Hsrc & Hsk).
      exists (x :: skipped), rest. repeat split; auto.
    + by constructor.
Qed.

Lemma is_image_meta_spec m :
  is_image_meta m = true ↔
  (∃ p, m_property m = Some p ∧ p ∈ ["og:image"; "twitter:image"]) ∧
  ∃ content, m_content m = Some content ∧ Py.startswith content "http" = true.
Proof.
  unfold is_image_meta. rewrite andb_true_iff.
  assert (Hprop :
    match m_property m with
    | Some p => Py.mem p ["og:image"; "twitter:image"]
    | None => false
    end = true ↔
    ∃ p, m_property m = Some p ∧ p ∈ ["og:image"; "twitter:image"]).
  { destruct (m_property m) as [p|].
    - unfold Py.mem. rewrite existsb_exists. split.
      + intros (q & Hq & Heq). apply String.eqb_eq in Heq as ->.
        exists q. split; [done | by apply list_elem_of_In].
      + intros (q & [= <-] & Hq). exists p.
        split; [by apply list_elem_of_In | apply String.eqb_refl].
    - split; [done | by intros (q & [=] & _)]. }
  assert (Hcontent :
    Py.startswith (default "" (m_content m)) "http" = true ↔
    ∃ content, m_content m = Some content ∧ Py.startswith content "http" = true).
  { destruct (m_content m) as [content|]; simpl.
    - split; [eauto | by intros (q & [= <-] & Hq)].
    - split; [done | by intros (q & [=] & _)]. }
  tauto.
Qed.

Lemma find_meta_image_None metas :
  find_meta_image metas = None ↔ Forall (λ m, is_image_meta m = false) metas.
Proof.
  induction metas as [|m metas IH]; simpl.
  { split; [constructor | done]. }
  rewrite Forall_cons, <- IH. clear IH.
  destruct (is_image_meta m) eqn:Hm; [|tauto].
  apply is_image_meta_spec in Hm as (_ & content & -> & _).
  split; [done | by intros [? _]].
Qed.

(** C8, as stated, fails: the test is that the extension occurs somewhere
    in the URL. A source with a query string after [.png] is returned, and
    the later source that does end in [.jpg] is not. *)
Lemma inline_image_not_by_suffix :
  let page := Response 200 [] [] ["https://x/a.png?w=1"; "https://x/b.jpg"] in
  let E := Env (λ _ _, Some page) (λ _ _, None) (λ _, 0) (λ _ _, true) (λ s, s) in
  let draft := Article "t" (Some "https://site/post") "s" (Some "tech") (Some false) in
  let st := State initial_categories (Some (Fresh draft)) None 0 [] in
  (extract_image_from_article E st).1 = Ret (Some "https://x/a.png?w=1") ∧
  Py.any (Py.endswith "https://x/a.png?w=1") extensions = false ∧
  Py.any (Py.endswith "https://x/b.jpg") extensions = true.
Proof. repeat split; reflexivity. Qed.

(** C8 (amended): when the page of the draft's link is fetched and holds no
    Open-Graph or Twitter-card image, the extractor returns the first
    inline image source that starts with [http] and contains one of
    [.jpg], [.jpeg], [.png] anywhere in it, and nothing when there is none;
    a source that contains none of the three is never returned. *)
Theorem extract_inline_image E st a l r :
  current st = Some a →
  link a = Some l → l ≠ "" →
  session_get E (clock st) l = Some r →
  find_meta_image (meta_tags r) = None →
  extract_image_from_article E st =
    (Ret (find_inline_image (img_srcs r)), world_step 1 [EvGet l] st) ∧
  match find_inline_image (img_srcs r) with
  | Some src =>
      (∃ skipped rest, img_srcs r = skipped ++ src :: rest ∧
                       Forall (λ x, image_like x = false) skipped) ∧
      Py.startswith src "http" = true ∧
      ∃ ext, ext ∈ extensions ∧ Py.contains ext src = true
  | None => Forall (λ x, image_like x = false) (img_srcs r)
  end.
Proof.
  intros Ha Hl Hne Hr Hmeta. split.
  - unfold extract_image_from_article, bind, get_state. rewrite Ha, Hl.
    destruct l as [|ch l]; [done|]. simpl.
    unfold try_except, bind, http_get, bind, get_state, emit, advance, subscript.
    simpl. rewrite Hr. unfold ret at 1. rewrite Hmeta. done.
  - pose proof (find_inline_image_spec (img_srcs r)) as Hspec.
    destruct (find_inline_image (img_srcs r)) as [src|]; [|done].
    destruct Hspec as (skipped & rest & Heq & Hsrc & Hsk).
    apply image_like_spec in Hsrc as [Hhttp Hext]. split_and!; eauto.
Qed.

Lemma extract_inline_image_witness :
  let page := Response 200 [] [Meta (Some "description") (Some "http://d")]
                ["/logo.png"; "https://x/a.png?w=1"; "https://x/b.jpg"] in
  let E := Env (λ _ _, Some page) (λ _ _, None) (λ _, 0) (λ _ _, true) (λ s, s) in
  let draft := Article "t" (Some "https://site/post") "s" (Some "tech") (Some false) in
  let st := State initial_categories (Some (Fresh draft)) None 0 [] in
  extract_image_from_article E st =
    (Ret (find_inline_image (img_srcs page)), world_step 1 [EvGet "https://site/post"] st) ∧
  match find_inline_image (img_srcs page) with
  | Some src =>
      (∃ skipped rest, img_srcs page = skipped ++ src :: rest ∧
                       Forall (λ x, image_like x = false) skipped) ∧
      Py.startswith src "http" = true ∧
      ∃ ext, ext ∈ extensions ∧ Py.contains ext src = true
  | None => Forall (λ x, image_like x = false) (img_srcs page)
  end.
Proof.
  intros page E draft st.
  apply (extract_inline_image E st draft "https://site/post" page);
    [reflexivity | reflexivity | done | reflexivity | reflexivity].
Defined.

(** ** Publishing *)

Definition with_current (r : option article_ref) (st : state) : state :=
  State (categories st) r (channel_id st) (clock st) (trace st).

Definition no_data_warning : call :=
  Call edit_message_text "⚠️ Нет данных для публикации" None None None.

Definition publish_failed_notice : call :=
  Call edit_message_text "⚠️ Не удалось опубликовать новость. Попробуйте позже."
       None None None.

Definition published_notice (c : category_cfg) : call :=
  Call edit_message_text
       ("✅ *Новость опубликована в канале!*" +:+ Py.nl +:+ Py.nl +:+
        "Категория: " +:+ name c)
       None None Markdown.

Definition channel_post (channel : option string) (c : category_cfg) (a : article)
    (image_url : string) : call :=
  Call (send_photo channel) (post_text c a) (Some image_url) None Markdown.

Definition is_channel_delivery (ev : event) : Prop :=
  ∃ c ok chat, ev = EvCall c ok ∧ meth c = send_photo chat.

Section Publish.

Variable E : env.

(** One call of the retry wrapper: [k] failures, then an attempt whose
    answer [ok] decides between returning and raising. *)
Lemma send_with_retry_attempts c st :
  ∃ (k : nat) (ok : bool),
    k < 3 ∧
    send_with_retry E c st =
      (if ok then Ret tt else Raise TelegramError,
       world_step (S k) (attempts c k ok) st) ∧
    (∀ j, j < k → transport E (j + clock st) c = false) ∧
    transport E (k + clock st) c = ok ∧
    (ok = false → k = 2).
Proof.
  rewrite send_with_retry_run. cbv zeta.
  destruct (transport E (clock st) c) eqn:T0.
  { exists 0, true. split_and!; auto; try lia; done. }
  destruct (transport E (S (clock st)) c) eqn:T1.
  { exists 1, true. split_and!; auto; try done.
    intros j Hj. by replace j with 0 by lia. }
  assert (∀ j, j < 2 → transport E (j + clock st) c = false).
  { intros [|[|j]] Hj; try lia; done. }
  destruct (transport E (S (S (clock st))) c) eqn:T2.
  - exists 2, true. split_and!; auto; done.
  - exists 2, false. split_and!; auto.
Qed.

(** C9: publishing with an empty slot. The warning is sent to the user
    through the retry wrapper ([k] refused attempts, then one that the
    transport answers with [ok]); nothing is delivered to the channel;
    the slot stays empty and the catalogue and the channel are as they
    were. *)
Theorem publish_without_draft st :
  current_article st = None →
  ∃ (k : nat) (ok : bool),
    k < 3 ∧
    publish_article E st =
      (if ok then Ret tt else Raise TelegramError,
       world_step (S k) (attempts no_data_warning k ok) st) ∧
    (∀ j, j < k → transport E (j + clock st) no_data_warning = false) ∧
    transport E (k + clock st) no_data_warning = ok ∧
    let st' := (publish_article E st).2 in
    current_article st' = None ∧
    categories st' = categories st ∧
    channel_id st' = channel_id st ∧
    ∃ evs, trace st' = trace st ++ evs ∧ Forall (λ ev, ¬ is_channel_delivery ev) evs.
Proof.
  intros Hcur. unfold publish_article, bind, get_state, current.
  rewrite Hcur. simpl. fold no_data_warning.
  destruct (send_with_retry_attempts no_data_warning st)
    as (k & ok & Hk & -> & Hfail & Hok & _).
  exists k, ok. split_and!; auto.
  simpl. exists (attempts no_data_warning k ok). split; [done|].
  clear. induction k as [|k IH]; simpl.
  - constructor; [|constructor]. intros (c & ok' & chat & [= <- <-] & Hm). done.
  - constructor; [intros (c & ok' & chat & [= <- <-] & Hm); done|].
    constructor; [intros (c & ok' & chat & [=] & Hm)|]. done.
Qed.

End Publish.

Lemma publish_without_draft_witness :
  ∃ (k : nat) (ok : bool),
    k < 3 ∧
    publish_article Scenario.offline (init None) =
      (if ok then Ret tt else Raise TelegramError,
       world_step (S k) (attempts no_data_warning k ok) (init None)) ∧
    (∀ j, j < k →
       transport Scenario.offline (j + clock (init None)) no_data_warning = false) ∧
    transport Scenario.offline (k + clock (init None)) no_data_warning = ok ∧
    let st' := (publish_article Scenario.offline (init None)).2 in
    current_article st' = None ∧
    categories st' = categories (init None) ∧
    channel_id st' = channel_id (init None) ∧
    ∃ evs, trace st' = trace (init None) ++ evs ∧
           Forall (λ ev, ¬ is_channel_delivery ev) evs.
Proof.
  apply (publish_without_draft Scenario.offline (init None)). reflexivity.
Defined.

Example publish_without_draft_trace :
  publish_article Scenario.offline (init None) =
    (Ret tt, world_step 1 [EvCall no_data_warning true] (init None)).
Proof. reflexivity. Qed.

(** ** C4: the publish transition *)

Section PublishDraft.

Variable E : env.

Lemma current_world_step n evs st : current (world_step n evs st) = current st.
Proof. done. Qed.

(** C4 (amended): with a draft in the slot, the publish action resolves an
    image and then
    - clears the draft when the delivery to the channel succeeds and the
      confirmation shown to the user succeeds as well;
    - when the delivery to the channel fails, leaves the draft and the
      catalogue as they were and sends the error notice to the user
      through the retry wrapper;
    - does the same when the delivery succeeded and the confirmation
      failed. *)
Theorem publish_article_transition st a :
  state_ok st →
  current st = Some a →
  ∃ cid c url st1,
    category a = Some cid ∧
    dict_get (categories st) cid = Some c ∧
    get_image_with_fallback E st = (Ret url, st1) ∧
    let post := channel_post (channel_id st) c a url in
    (∀ st2 st3,
       send_with_retry E post st1 = (Ret tt, st2) →
       send_with_retry E (published_notice c) st2 = (Ret tt, st3) →
       publish_article E st = (Ret tt, with_current None st3) ∧
       categories st3 = categories st) ∧
    (∀ e st2,
       send_with_retry E post st1 = (Raise e, st2) →
       publish_article E st = send_with_retry E publish_failed_notice st2 ∧
       let st' := (publish_article E st).2 in
       current_article st' = current_article st ∧ current st' = Some a ∧
       categories st' = categories st) ∧
    (∀ e st2 st3,
       send_with_retry E post st1 = (Ret tt, st2) →
       send_with_retry E (published_notice c) st2 = (Raise e, st3) →
       publish_article E st = send_with_retry E publish_failed_notice st3 ∧
       let st' := (publish_article E st).2 in
       current_article st' = current_article st ∧ current st' = Some a ∧
       categories st' = categories st).
Proof.
  intros [Hwf Hcur] Ha.
  assert (∃ cid c, category a = Some cid ∧ dict_get (categories st) cid = Some c)
    as (cid & c & Hcid & Hc).
  { unfold current_ok in Hcur. unfold current in Ha.
    destruct (current_article st) as [r|]; [|done]. simpl in Ha.
    destruct Hcur as (a' & cid & c & Ha' & ? & ?).
    assert (a' = a) as -> by congruence. eauto. }
  destruct (get_image_with_fallback_ret E st (conj Hwf Hcur)) as (url & st1 & Himg & _).
  destruct (frames_get_image_with_fallback E st) as (n & evs & Hst1).
  rewrite Himg in Hst1. simpl in Hst1. subst st1.
  assert (Hbody :
    publish_article E st =
      try_except
        (send_with_retry E (channel_post (channel_id st) c a url) ;;;
         send_with_retry E (published_notice c) ;;;
         set_current_article None)
        (λ _, send_with_retry E publish_failed_notice) (world_step n evs st)).
  { unfold publish_article. unfold bind at 1. unfold get_state at 1.
    rewrite Ha. unfold try_except.
    erewrite run_bind by (rewrite Hcid; reflexivity).
    erewrite run_bind by (rewrite Hc; reflexivity).
    erewrite run_bind by exact Himg.
    erewrite run_bind
      by (unfold read_current, bind, get_state; rewrite current_world_step, Ha;
          reflexivity).
    erewrite run_bind by reflexivity.
    reflexivity. }
  exists cid, c, url, (world_step n evs st).
  do 3 (split; [done|]). cbv zeta. split; [|split].
  - intros st2 st3 H2 H3. rewrite Hbody. unfold try_except, bind.
    rewrite H2, H3. split; [done|].
    destruct (frames_send_with_retry E (channel_post (channel_id st) c a url)
                (world_step n evs st)) as (n2 & ev2 & Hs2).
    destruct (frames_send_with_retry E (published_notice c) st2) as (n3 & ev3 & Hs3).
    rewrite H2 in Hs2. rewrite H3 in Hs3. simpl in *. by subst.
  - intros e st2 H2.
    destruct (frames_send_with_retry E (channel_post (channel_id st) c a url)
                (world_step n evs st)) as (n2 & ev2 & Hs2).
    rewrite H2 in Hs2. simpl in Hs2. subst st2.
    assert (Heq : publish_article E st =
                  send_with_retry E publish_failed_notice
                    (world_step n2 ev2 (world_step n evs st))).
    { rewrite Hbody. unfold try_except, bind. by rewrite H2. }
    split; [done|]. rewrite Heq.
    destruct (frames_send_with_retry E publish_failed_notice
                (world_step n2 ev2 (world_step n evs st))) as (n3 & ev3 & ->).
    done.
  - intros e st2 st3 H2 H3.
    destruct (frames_send_with_retry E (channel_post (channel_id st) c a url)
                (world_step n evs st)) as (n2 & ev2 & Hs2).
    rewrite H2 in Hs2. simpl in Hs2. subst st2.
    destruct (frames_send_with_retry E (published_notice c)
                (world_step n2 ev2 (world_step n evs st))) as (n3 & ev3 & Hs3).
    rewrite H3 in Hs3. simpl in Hs3. subst st3.
    assert (Heq : publish_article E st =
                  send_with_retry E publish_failed_notice
                    (world_step n3 ev3 (world_step n2 ev2 (world_step n evs st)))).
    { rewrite Hbody. unfold try_except, bind. by rewrite H2, H3. }
    split; [done|]. rewrite Heq.
    destruct (frames_send_with_retry E publish_failed_notice
                (world_step n3 ev3 (world_step n2 ev2 (world_step n evs st))))
      as (n4 & ev4 & ->).
    done.
Qed.

End PublishDraft.

(** C4, as stated, fails: the channel accepts the post, the transport
    refuses the confirmation, and the draft is still in the slot while the
    user is told that publishing failed. *)
Lemma publish_delivered_draft_kept :
  let E := Env (λ _ _, None) (λ _ _, None) (λ _, 0)
               (λ _ c, negb (Py.startswith (text c) "✅")) (λ s, s) in
  let st := Scenario.tech_draft in
  let st' := (publish_article E st).2 in
  (publish_article E st).1 = Ret tt ∧
  map (λ p, (meth p.1, p.2)) (calls_of (trace st')) =
    [ (send_photo None, true);
      (edit_message_text, false); (edit_message_text, false); (edit_message_text, false);
      (edit_message_text, true) ] ∧
  last (calls_of (trace st')) = Some (publish_failed_notice, true) ∧
  current_article st' = Some (Shared "tech" 0) ∧
  current st' = current st.
Proof. repeat split; reflexivity. Qed.

Lemma publish_article_transition_witness :
  let E := Scenario.offline in
  let st := Scenario.tech_draft in
  let a := mark_fallback "tech"
             (Article "Новые технологии в IT" None
                "Современные технологии развиваются быстрыми темпами..." None None) in
  ∃ cid c url st1,
    category a = Some cid ∧
    dict_get (categories st) cid = Some c ∧
    get_image_with_fallback E st = (Ret url, st1) ∧
    let post := channel_post (channel_id st) c a url in
    (∀ st2 st3,
       send_with_retry E post st1 = (Ret tt, st2) →
       send_with_retry E (published_notice c) st2 = (Ret tt, st3) →
       publish_article E st = (Ret tt, with_current None st3) ∧
       categories st3 = categories st) ∧
    (∀ e st2,
       send_with_retry E post st1 = (Raise e, st2) →
       publish_article E st = send_with_retry E publish_failed_notice st2 ∧
       let st' := (publish_article E st).2 in
       current_article st' = current_article st ∧ current st' = Some a ∧
       categories st' = categories st) ∧
    (∀ e st2 st3,
       send_with_retry E post st1 = (Ret tt, st2) →
       send_with_retry E (published_notice c) st2 = (Raise e, st3) →
       publish_article E st = send_with_retry E publish_failed_notice st3 ∧
       let st' := (publish_article E st).2 in
       current_article st' = current_article st ∧ current st' = Some a ∧
       categories st' = categories st).
Proof.
  intros E st a.
  apply (publish_article_transition E st a).
  - apply tech_draft_ok.
  - reflexivity.
Defined.

(** With a transport that works the draft is published and cleared; with a
    channel that refuses the post it stays, and the user gets the notice. *)
Example publish_ok :
  let r := publish_article Scenario.offline Scenario.tech_draft in
  r.1 = Ret tt ∧ current_article r.2 = None ∧
  map (λ p, (meth p.1, p.2)) (calls_of (trace r.2)) =
    [(send_photo None, true); (edit_message_text, true)].
Proof. repeat split; reflexivity. Qed.

Example publish_channel_refuses :
  let E := Env (λ _ _, None) (λ _ _, None) (λ _, 0)
               (λ _ c, match meth c with send_photo _ => false | _ => true end)
               (λ s, s) in
  let r := publish_article E Scenario.tech_draft in
  r.1 = Ret tt ∧ current r.2 = current Scenario.tech_draft ∧
  last (calls_of (trace r.2)) = Some (publish_failed_notice, true) ∧
  map (λ p, (meth p.1, p.2)) (calls_of (trace r.2)) =
    [(send_photo None, false); (send_photo None, false); (send_photo None, false);
     (edit_message_text, true)].
Proof. repeat split; reflexivity. Qed.

(** ** What every handler keeps

    The catalogue changes only by [update_current]: a fallback record gains
    the keys ['category'] and ['is_fallback']. With these two keys erased
    the catalogue is the one [__init__] built. *)

Definition erase (a : article) : article :=
  Article (title a) (link a) (summary a) None None.

Definition erase_category (c : category_cfg) : category_cfg :=
  set_fallback_articles (erase <$> fallback_articles c) c.

Definition erase_marks (cats : catalogue) : catalogue :=
  (λ kc, (kc.1, erase_category kc.2)) <$> cats.

Lemma erase_category_mark_at k i c : erase_category (mark_at k i c) = erase_category c.
Proof.
  unfold erase_category, mark_at, set_fallback_articles; simpl. f_equal.
  apply list_eq. intros j. rewrite !list_lookup_fmap, list_lookup_alter.
  destruct (decide (i = j)) as [->|]; [|done].
  by destruct (fallback_articles c !! j).
Qed.

Lemma erase_marks_alter k i cats :
  erase_marks (dict_alter (mark_at k i) k cats) = erase_marks cats.
Proof.
  induction cats as [|[k' c] cats IH]; simpl; [done|].
  destruct (String.eqb k k'); simpl.
  - by rewrite erase_category_mark_at.
  - f_equal. apply IH.
Qed.

Definition inv (st : state) : Prop :=
  state_ok st ∧ erase_marks (categories st) = initial_categories.

Definition preserves {A} (m : M A) : Prop := ∀ st, inv st → inv (m st).2.

Lemma init_inv channel : inv (init channel).
Proof. split; [apply init_ok | done]. Qed.

Lemma preserves_frames {A} (m : M A) : frames m → preserves m.
Proof. intros Hm st Hst. by destruct (Hm st) as (n & evs & ->). Qed.

Lemma preserves_bind {A B} (m : M A) (k : A → M B) :
  preserves m → (∀ a, preserves (k a)) → preserves (bind m k).
Proof.
  intros Hm Hk st Hst. unfold bind. specialize (Hm st Hst).
  destruct (m st) as [[a|e|] st1]; simpl in *; auto. by apply Hk.
Qed.

Lemma preserves_try {A} (m : M A) (h : exn → M A) :
  preserves m → (∀ e, preserves (h e)) → preserves (try_except m h).
Proof.
  intros Hm Hh st Hst. unfold try_except. specialize (Hm st Hst).
  destruct (m st) as [[a|e|] st1]; simpl in *; auto. by apply Hh.
Qed.

Lemma preserves_clear : preserves (set_current_article None).
Proof. intros st [[Hwf _] He]. done. Qed.

Section Preservation.

Variable E : env.

Lemma preserves_try_get_fresh_article cid : preserves (try_get_fresh_article E cid).
Proof.
  intros st [[Hwf Hcur] He].
  destruct (try_get_fresh_article_cases E cid st) as (b & st' & -> & Hc & _ & Hb).
  simpl. unfold inv, state_ok, current_ok. rewrite Hc. split_and!; auto.
  destruct b.
  - destruct Hb as ([c Hget] & a & -> & Hcid & _). exists a, cid, c. done.
  - by rewrite Hb.
Qed.

Lemma preserves_use_fallback_article cid : preserves (use_fallback_article E cid).
Proof.
  intros st [[Hwf Hcur] He].
  destruct (dict_get (categories st) cid) as [c|] eqn:Hc.
  2:{ by rewrite use_fallback_article_undefined. }
  destruct (catalogue_wf_get _ _ _ Hwf Hc) as (Hne & _).
  rewrite (use_fallback_article_run E cid st c Hc Hne). simpl.
  destruct (lookup_mod_is_Some (fallback_articles c) (rand E (clock st)) Hne) as [a Ha].
  split; [split|]; simpl.
  - by apply catalogue_wf_alter.
  - exists (mark_fallback cid a), cid, (mark_at cid
             (rand E (clock st) mod length (fallback_articles c)) c).
    cbn [categories deref]. rewrite dict_get_alter_eq, Hc. simpl.
    by rewrite list_lookup_alter_eq, Ha.
  - by rewrite erase_marks_alter.
Qed.

Lemma frames_read_current : frames read_current.
Proof. unfold read_current. frame. Qed.

Hint Resolve preserves_try_get_fresh_article preserves_use_fallback_article
  preserves_clear frames_read_current : frames.

Ltac keep :=
  repeat first
    [ solve [eauto with frames]
    | solve [apply preserves_frames; eauto with frames]
    | apply preserves_bind; [| intros ?]
    | apply preserves_try; [| intros ?]
    | match goal with
      | |- context [match ?x with _ => _ end] => destruct x
      | |- context [if ?x then _ else _] => destruct x
      end ].

Lemma preserves_resolve_article cid : preserves (resolve_article E cid).
Proof. unfold resolve_article. keep. Qed.

Lemma preserves_preview u cid : preserves (preview E u cid).
Proof.
  unfold preview. apply preserves_bind; [apply preserves_resolve_article|].
  intros _. keep.
Qed.

Lemma preserves_process_category fuel u cid : preserves (process_category E fuel u cid).
Proof.
  revert u cid. induction fuel as [|fuel IH]; intros u cid; simpl.
  - by intros st Hst.
  - apply preserves_try; [apply preserves_preview|]. intros _.
    apply preserves_bind; [apply preserves_frames; eauto with frames|]. intros _.
    apply preserves_bind; [apply preserves_use_fallback_article|]. intros _.
    apply IH.
Qed.

Lemma preserves_publish_article : preserves (publish_article E).
Proof.
  unfold publish_article. apply preserves_bind; [keep|]. intros st0.
  destruct (current st0); [|keep].
  apply preserves_try; [|intros _; keep].
  repeat (apply preserves_bind; [keep|]; intros ?). apply preserves_clear.
Qed.

Lemma preserves_handle fuel i : preserves (handle E fuel i).
Proof.
  destruct i as [| | |text|data]; simpl.
  - apply preserves_frames, frames_start.
  - apply preserves_frames, frames_help_command.
  - unfold random_news. apply preserves_bind; [keep|]. intros st0.
    apply preserves_bind; [keep|]. intros cid. apply preserves_process_category.
  - unfold handle_message, random_news.
    repeat match goal with |- context [if ?x then _ else _] => destruct x end;
      auto using preserves_process_category; try solve [keep].
    apply preserves_bind; [keep|]. intros st0.
    apply preserves_bind; [keep|]. intros cid. apply preserves_process_category.
  - unfold handle_callback.
    apply preserves_bind; [keep|]. intros _.
    apply preserves_try; [|intros _; keep].
    repeat match goal with |- context [if ?x then _ else _] => destruct x end;
      auto using preserves_publish_article; try solve [keep].
    apply preserves_bind; [keep|]. intros cid. apply preserves_process_category.
Qed.

(** The states the bot can be in: the one [__init__] leaves, and those
    that follow an interaction. *)
Inductive reachable : state → Prop :=
| reach_init channel : reachable (init channel)
| reach_step fuel i st :
    reachable st → reachable (handle E fuel i st).2.

Lemma reachable_inv st : reachable st → inv st.
Proof.
  induction 1 as [channel|fuel i st _ IH]; [apply init_inv|].
  by apply preserves_handle.
Qed.

(** X2: in every reachable state the catalogue is well formed (every
    category has a fallback article and a fallback image, none blank) and
    the slot is empty or holds a draft of a category of the catalogue: what
    the resolvers assume holds whenever a handler starts. *)
Lemma reachable_ok st : reachable st → state_ok st.
Proof. intros H. by destruct (reachable_inv st H). Qed.

(** X1: in every reachable state the catalogue is the one built at startup
    once the keys ['category'] and ['is_fallback'] are erased from its
    fallback records: keys, names, feeds, keywords, images, and the title
    and summary of every fallback article never change. *)
Lemma catalogue_static_part st :
  reachable st → erase_marks (categories st) = initial_categories.
Proof. intros H. by destruct (reachable_inv st H). Qed.

End Preservation.

(** ** C7: the catalogue after an interaction *)

(** The catalogue once the first fallback record of [tech] has been used. *)
Definition catalogue_after_tech_fallback : catalogue :=
  dict_alter (mark_at "tech" 0) "tech" initial_categories.

(** C7 fails on the code: one request for [tech] with the network down
    leaves the first fallback record of [tech] with two more keys, so the
    catalogue is no longer the one built at startup. *)
Theorem catalogue_is_mutated :
  categories <$> run Scenario.offline 1 [Message "💻 Технологии"] (init None)
    = Some catalogue_after_tech_fallback ∧
  catalogue_after_tech_fallback ≠ categories (init None) ∧
  (c ← dict_get catalogue_after_tech_fallback "tech"; fallback_articles c !! 0) =
    Some (Article "Новые технологии в IT" None
            "Современные технологии развиваются быстрыми темпами..."
            (Some "tech") (Some true)).
Proof.
  split_and!; [reflexivity | | reflexivity].
  intros H.
  apply (f_equal (λ cats, c ← dict_get cats "tech"; a ← fallback_articles c !! 0;
                          is_fallback a)) in H.
  vm_compute in H. discriminate H.
Qed.

(** ** C6: the recovery path of [process_category] *)

Section Termination.

Variable E : env.

Lemma fuel_free_get_image_with_fallback : fuel_free (get_image_with_fallback E).
Proof.
  unfold get_image_with_fallback, article_image, unsplash_image,
    extract_image_from_article. frame.
Qed.

(** The handlers that do not go through [process_category] never need
    fuel: their loops are bounded by [max_retries]. *)
Lemma fuel_free_start : fuel_free (start E).
Proof. apply fuel_free_send_with_retry. Qed.

Lemma fuel_free_help_command : fuel_free (help_command E).
Proof. apply fuel_free_send_with_retry. Qed.

Lemma fuel_free_publish_article : fuel_free (publish_article E).
Proof.
  pose proof fuel_free_get_image_with_fallback.
  unfold publish_article, read_current. frame.
Qed.

(** One level of the handler, with the call to itself made a parameter. *)
Definition process_step (again : M unit) (update : update_obj) (category_id : string)
    : M unit :=
  try_except (preview E update category_id)
    (λ _,
       send_with_retry E (Call reply_text critical_notice None None Markdown) ;;;
       use_fallback_article E "tech" ;;;
       again).

Lemma process_category_S fuel u cid :
  process_category E (S fuel) u cid =
  process_step (process_category E fuel u "tech") u cid.
Proof. reflexivity. Qed.

End Termination.

(** In the world of [Scenario.stray_underscore], one level of the handler
    ends in the call to itself, whatever the slot, the clock and the trace. *)
Lemma stray_underscore_step (again : M unit) u cid cur ch t tr :
  cid = "tech" ∨ cid = "politics" →
  ∃ cur' t' tr',
    process_step Scenario.stray_underscore again u cid
      (State catalogue_after_tech_fallback cur ch t tr)
    = again (State catalogue_after_tech_fallback cur' ch t' tr').
Proof.
  intros [-> | ->]; destruct u; eexists _, _, _; vm_compute; reflexivity.
Qed.

Lemma stray_underscore_loops fuel u cur ch t tr :
  (process_category Scenario.stray_underscore fuel u "tech"
     (State catalogue_after_tech_fallback cur ch t tr)).1 = OutOfFuel.
Proof.
  revert cur t tr. induction fuel as [|fuel IH]; intros cur t tr; [done|].
  rewrite process_category_S.
  destruct (stray_underscore_step
              (process_category Scenario.stray_underscore fuel u "tech")
              u "tech" cur ch t tr) as (cur' & t' & tr' & ->); [by left|].
  apply IH.
Qed.

(** C6 fails on the code: after the message asking for [tech], the handler
    re-enters itself from its [except] clause at every level, so no amount
    of fuel lets the run end. *)
Theorem critical_recovery_unbounded (fuel : nat) :
  (handle Scenario.stray_underscore fuel (Message "💻 Технологии") (init None)).1
  = OutOfFuel.
Proof.
  change (handle Scenario.stray_underscore fuel (Message "💻 Технологии") (init None))
    with (process_category Scenario.stray_underscore fuel AnUpdate "tech" (init None)).
  destruct fuel as [|fuel]; [done|].
  rewrite process_category_S.
  assert (∃ cur' t' tr',
    process_step Scenario.stray_underscore
      (process_category Scenario.stray_underscore fuel AnUpdate "tech") AnUpdate "tech"
      (init None)
    = process_category Scenario.stray_underscore fuel AnUpdate "tech"
        (State catalogue_after_tech_fallback cur' None t' tr'))
    as (cur' & t' & tr' & ->).
  { generalize (process_category Scenario.stray_underscore fuel AnUpdate "tech").
    intros again. eexists _, _, _. vm_compute. reflexivity. }
  apply stray_underscore_loops.
Qed.

(** ** The handler in a world whose transport works *)

Lemma dict_get_erase_marks cats k :
  dict_get (erase_marks cats) k = erase_category <$> dict_get cats k.
Proof.
  induction cats as [|[k' c] cats IH]; simpl; [done|].
  by destruct (String.eqb k k').
Qed.

Lemma inv_defined st st' k :
  inv st → inv st' →
  is_Some (dict_get (categories st) k) → is_Some (dict_get (categories st') k).
Proof.
  intros [_ He] [_ He'] [c Hc].
  assert (H : dict_get (erase_marks (categories st')) k = Some (erase_category c)).
  { by rewrite He', <- He, dict_get_erase_marks, Hc. }
  rewrite dict_get_erase_marks in H.
  destruct (dict_get (categories st') k); [eauto | done].
Qed.

(** What the resolver leaves in the slot: a draft of the category asked
    for, fresh with its link, or a fallback. *)
Lemma resolve_article_ret E cid c st :
  catalogue_wf (categories st) →
  dict_get (categories st) cid = Some c →
  ∃ st' a,
    resolve_article E cid st = (Ret tt, st') ∧
    current st' = Some a ∧
    category a = Some cid ∧
    (is_fallback a = Some true ∨ is_fallback a = Some false ∧ is_Some (link a)).
Proof.
  intros Hwf Hc.
  destruct (catalogue_wf_get _ _ _ Hwf Hc) as (Hne & _).
  unfold resolve_article, bind.
  destruct (try_get_fresh_article_cases E cid st) as (b & st1 & -> & Hcats & _ & Hcur).
  destruct b; simpl.
  - destruct Hcur as (_ & a & Ha & Hcid & Hfb & Hlink & _).
    exists st1, a. unfold current. rewrite Ha. split_and!; auto.
  - rewrite <- Hcats in Hc.
    destruct (lookup_mod_is_Some (fallback_articles c) (rand E (clock st1)) Hne) as [a Ha].
    eexists _, (mark_fallback cid a).
    split; [by apply (use_fallback_article_run E cid st1 c)|].
    split; [by apply (current_after_fallback _ cid c)|]. split; auto.
Qed.

(** X3: when the transport accepts every call, asking for a category of the
    catalogue ends at the first level of the handler, whatever the network
    does: the draft is in the slot, and the last event is the preview, sent
    as a photo with its caption and buttons and accepted at the first
    attempt. *)
Theorem process_category_returns E fuel u cid st :
  (∀ t c, transport E t c = true) →
  inv st →
  is_Some (dict_get (categories st) cid) →
  ∃ st' evs c a img,
    process_category E (S fuel) u cid st = (Ret tt, st') ∧
    dict_get (categories st') cid = Some c ∧
    current st' = Some a ∧
    trace st' =
      evs ++ [EvCall (photo_call u img (post_text c a) (Some (action_keyboard cid))) true].
Proof.
  intros Htransport Hinv [c0 Hc0].
  destruct (resolve_article_ret E cid c0 st (proj1 (proj1 Hinv)) Hc0)
    as (st1 & a & Hres & Ha & _).
  assert (Hinv1 : inv st1).
  { pose proof (preserves_resolve_article E cid st Hinv) as H. by rewrite Hres in H. }
  destruct (get_image_with_fallback_ret E st1 (proj1 Hinv1)) as (img & st2 & Himg & _).
  destruct (frames_get_image_with_fallback E st1) as (n2 & ev2 & Hst2).
  rewrite Himg in Hst2. simpl in Hst2. subst st2.
  destruct (inv_defined st st1 cid Hinv Hinv1 (ex_intro _ c0 Hc0)) as [c Hc].
  set (st2 := world_step n2 ev2 st1).
  set (pc := photo_call u img (post_text c a) (Some (action_keyboard cid))).
  exists (world_step 1 [EvCall pc true] st2), (trace st2), c, a, img.
  split; [|done].
  simpl. unfold try_except.
  assert (Hpreview : preview E u cid st = (Ret tt, world_step 1 [EvCall pc true] st2)).
  { unfold preview.
    erewrite run_bind by exact Hres.
    erewrite run_bind by exact Himg.
    erewrite run_bind by reflexivity.
    erewrite run_bind by (simpl; rewrite Hc; reflexivity).
    erewrite run_bind
      by (unfold read_current, bind, get_state; rewrite current_world_step, Ha;
          reflexivity).
    unfold send_news_message, try_except.
    destruct u; simpl; rewrite send_with_retry_run, Htransport; reflexivity. }
  by rewrite Hpreview.
Qed.

Lemma process_category_returns_witness :
  ∃ st' evs c a img,
    process_category Scenario.offline 1 AnUpdate "tech" (init None) = (Ret tt, st') ∧
    dict_get (categories st') "tech" = Some c ∧
    current st' = Some a ∧
    trace st' =
      evs ++ [EvCall (photo_call AnUpdate img (post_text c a)
                        (Some (action_keyboard "tech"))) true].
Proof.
  apply (process_category_returns Scenario.offline 0 AnUpdate "tech" (init None)).
  - reflexivity.
  - apply init_inv.
  - eexists. reflexivity.
Defined.

Lemma catalogue_static_part_witness :
  erase_marks
    (categories (handle Scenario.offline 1 (Message "💻 Технологии") (init None)).2)
  = initial_categories.
Proof.
  apply (catalogue_static_part Scenario.offline).
  apply reach_step, reach_init.
Defined.

Lemma reachable_ok_witness :
  state_ok (handle Scenario.stray_underscore 3 (CallbackQuery "category_politics")
              (init None)).2.
Proof.
  apply (reachable_ok Scenario.stray_underscore).
  apply reach_step, reach_init.
Defined.

(** * More of the code *)

(** ** [send_with_retry] for any [max_retries] *)

Section RetryLoop.

Variable E : env.

Lemma sleep_run n st : sleep n st = (Ret tt, world_step 0 [EvSleep n] st).
Proof. reflexivity. Qed.

(** The loop from iteration [a] on, with [todo] iterations left: the first
    [k] of them fail, the next one succeeds. *)
Lemma retry_loop_succeeds n c todo a st k :
  a + todo = n → k < todo →
  (∀ j, j < k → transport E (j + clock st) c = false) →
  transport E (k + clock st) c = true →
  send_with_retry_loop E n a todo c st =
    (Ret tt, world_step (S k) (attempts c k true) st).
Proof.
  revert a st k. induction todo as [|todo IH]; intros a st k Hn Hk Hfail Hok; [lia|].
  simpl. unfold try_except. rewrite invoke_run.
  destruct k as [|k].
  - simpl in Hok. by rewrite Hok.
  - pose proof (Hfail 0 ltac:(lia)) as H0. simpl in H0. rewrite H0.
    destruct (Nat.eqb_spec a (n - 1)) as [Heq|_]; [lia|].
    unfold bind. rewrite sleep_run, world_step_step.
    rewrite (IH (S a) _ k); [|lia|lia| |].
    + rewrite world_step_step. simpl. do 2 f_equal. lia.
    + intros j Hj. simpl. specialize (Hfail (S j)).
      replace (j + S (clock st)) with (S j + clock st) by lia. apply Hfail. lia.
    + simpl. by replace (k + S (clock st)) with (S k + clock st) by lia.
Qed.

(** All the iterations that are left fail. *)
Lemma retry_loop_fails n c todo a st :
  a + S todo = n →
  (∀ j, j < S todo → transport E (j + clock st) c = false) →
  send_with_retry_loop E n a (S todo) c st =
    (Raise TelegramError, world_step (S todo) (attempts c todo false) st).
Proof.
  revert a st. induction todo as [|todo IH]; intros a st Hn Hfail.
  - pose proof (Hfail 0 ltac:(lia)) as H0. simpl in H0.
    simpl. unfold try_except. rewrite invoke_run, H0.
    destruct (Nat.eqb_spec a (n - 1)) as [_|Hne]; [done | lia].
  - change (send_with_retry_loop E n a (S (S todo)) c st)
      with (try_except (invoke E c)
              (λ e, if Nat.eqb a (n - 1) then raise e
                    else sleep 1 ;;; send_with_retry_loop E n (S a) (S todo) c) st).
    pose proof (Hfail 0 ltac:(lia)) as H0. simpl in H0.
    unfold try_except. rewrite invoke_run, H0.
    destruct (Nat.eqb_spec a (n - 1)) as [Heq|_]; [lia|].
    unfold bind. rewrite sleep_run, world_step_step.
    rewrite (IH (S a)); [|lia|].
    + rewrite world_step_step. simpl. do 2 f_equal. lia.
    + intros j Hj. simpl. specialize (Hfail (S j)).
      replace (j + S (clock st)) with (S j + clock st) by lia. apply Hfail. lia.
Qed.

(** X4: the retry loop with [max_retries = n]. With [n = 0] it returns at
    once and calls nothing. Otherwise it calls the method until the first
    success, at most [n] times, pausing one second after every failure but
    the [n]-th, whose exception it lets through. *)
Theorem send_with_retry_any_bound n c st :
  (n = 0 → send_with_retry_loop E n 0 n c st = (Ret tt, st)) ∧
  (∀ k, k < n →
     (∀ j, j < k → transport E (j + clock st) c = false) →
     transport E (k + clock st) c = true →
     send_with_retry_loop E n 0 n c st =
       (Ret tt, world_step (S k) (attempts c k true) st)) ∧
  (0 < n →
     (∀ j, j < n → transport E (j + clock st) c = false) →
     send_with_retry_loop E n 0 n c st =
       (Raise TelegramError, world_step n (attempts c (n - 1) false) st)).
Proof.
  split_and!.
  - by intros ->.
  - intros k Hk Hfail Hok. by apply retry_loop_succeeds.
  - intros Hn Hfail. destruct n as [|m]; [lia|].
    replace (S m - 1) with m by lia. by apply retry_loop_fails.
Qed.

End RetryLoop.

Example retry_five_times :
  let E := Env (λ _ _, None) (λ _ _, None) (λ _, 0) (λ t _, Nat.leb 3 t) (λ s, s) in
  send_with_retry_loop E 5 0 5 no_data_warning (init None) =
    (Ret tt, world_step 4 (attempts no_data_warning 3 true) (init None)).
Proof. reflexivity. Qed.

(** ** The requests of [try_get_fresh_article] *)

Section FeedRequests.

Variable E : env.

(** One feed as the loop runs it: the body of the [try] under its [except]
    clause, which goes on to the next feed. *)
Definition ask_feed (cid url : string) : M bool :=
  try_except (try_feed E cid url) (λ _, ret false).

(** The feed [url], asked in the state [st], gives the article [a]: the
    request returns, its status is not one that [raise_for_status] rejects,
    and the entry drawn among the first ten has a title and a link; [a]
    has that title and that link, the cleaned and truncated summary of the
    entry, the category [cid] and the mark of a fresh article. *)
Definition feed_gives (cid url : string) (st : state) (a : article) : Prop :=
  ∃ r entry title link,
    session_get E (clock st) url = Some r ∧
    ¬ (400 ≤ status_code r < 600) ∧
    take 10 (feed_entries r)
      !! (rand E (S (clock st)) mod length (take 10 (feed_entries r))) = Some entry ∧
    e_title entry = Some title ∧ e_link entry = Some link ∧
    a = Article title (Some link) (truncate_summary (get_text E (raw_summary entry)))
                (Some cid) (Some false).

(** The feeds [urls], asked in turn from the state [st], all give nothing
    and are passed over, which leaves the state [st']. *)
Fixpoint feeds_skipped (cid : string) (urls : list string) (st st' : state) : Prop :=
  match urls with
  | [] => st' = st
  | url :: rest =>
      ∃ st1, ask_feed cid url st = (Ret false, st1) ∧
             (∀ a, ¬ feed_gives cid url st a) ∧
             feeds_skipped cid rest st1 st'
  end.

Lemma ask_feed_cases cid url st :
  (∃ a st', ask_feed cid url st = (Ret true, st') ∧ feed_gives cid url st a ∧
            current_article st' = Some (Fresh a) ∧
            trace st' = trace st ++ [EvGet url]) ∨
  (∃ st', ask_feed cid url st = (Ret false, st') ∧ (∀ a, ¬ feed_gives cid url st a) ∧
          current_article st' = current_article st ∧
          trace st' = trace st ++ [EvGet url]).
Proof.
  unfold ask_feed, feed_gives. unfold_feed.
  cbn -[Nat.leb Nat.ltb Nat.modulo take Py.slice_to].
  destruct (session_get E (clock st) url) as [r|] eqn:Hr;
    cbn -[Nat.leb Nat.ltb Nat.modulo take Py.slice_to].
  2:{ right. eexists. split_and!; [reflexivity | | done | done].
      by intros a (? & ? & ? & ? & [=] & _). }
  destruct (Nat.leb 400 (status_code r) && Nat.ltb (status_code r) 600) eqn:Hs;
    cbn -[Nat.leb Nat.ltb Nat.modulo take Py.slice_to].
  { right. eexists. split_and!; [reflexivity | | done | done].
    intros a (r' & ? & ? & ? & [= <-] & Hok & _). apply Hok.
    apply andb_true_iff in Hs as [H1 H2].
    apply Nat.leb_le in H1. apply Nat.ltb_lt in H2. lia. }
  assert (Hok : ¬ (400 ≤ status_code r < 600)).
  { intros [H1 H2]. apply Nat.leb_le in H1. apply Nat.ltb_lt in H2.
    by rewrite H1, H2 in Hs. }
  destruct (feed_entries r) as [|e0 es] eqn:He;
    cbn -[Nat.leb Nat.ltb Nat.modulo take Py.slice_to].
  { right. eexists. split_and!; [reflexivity | | done | done].
    intros a (r' & entry & ? & ? & [= <-] & _ & Hentry & _).
    rewrite He in Hentry. by rewrite take_nil, lookup_nil in Hentry. }
  destruct (length (take 10 (e0 :: es))) as [|n] eqn:Hlen; [done|].
  rewrite <- Hlen.
  cbn -[Nat.leb Nat.ltb Nat.modulo take Py.slice_to].
  destruct (take 10 (e0 :: es) !! (rand E (S (clock st)) mod length (take 10 (e0 :: es))))
    as [entry|] eqn:Hentry; cbn -[Nat.leb Nat.ltb Nat.modulo take Py.slice_to].
  2:{ right. eexists. split_and!; [reflexivity | | done | done].
      intros a (r' & entry & ? & ? & [= <-] & _ & Hentry' & _).
      rewrite He in Hentry'. congruence. }
  destruct (e_title entry) as [title|] eqn:Ht;
    cbn -[Nat.leb Nat.ltb Nat.modulo take Py.slice_to].
  2:{ right. eexists. split_and!; [reflexivity | | done | done].
      intros a (r' & entry' & ? & ? & [= <-] & _ & Hentry' & Ht' & _).
      rewrite He in Hentry'. congruence. }
  destruct (e_link entry) as [link|] eqn:Hl;
    cbn -[Nat.leb Nat.ltb Nat.modulo take Py.slice_to].
  2:{ right. eexists. split_and!; [reflexivity | | done | done].
      intros a (r' & entry' & ? & ? & [= <-] & _ & Hentry' & _ & Hl' & _).
      rewrite He in Hentry'. congruence. }
  left. eexists _, _. split_and!; [reflexivity | | reflexivity | done].
  exists r, entry, title, link. rewrite He. by split_and!.
Qed.

Lemma try_feeds_requests cid urls st :
  ∃ b k st',
    try_feeds E cid urls st = (Ret b, st') ∧
    k ≤ length urls ∧
    trace st' = trace st ++ (EvGet <$> take k urls) ∧
    (b = false → k = length urls) ∧
    (b = true → 0 < k) ∧
    if b then
      ∃ j url st1 a,
        k = S j ∧ urls !! j = Some url ∧
        feeds_skipped cid (take j urls) st st1 ∧
        ask_feed cid url st1 = (Ret true, st') ∧
        feed_gives cid url st1 a ∧
        current_article st' = Some (Fresh a)
    else
      feeds_skipped cid urls st st' ∧ current_article st' = current_article st.
Proof.
  revert st. induction urls as [|url urls IH]; intros st; simpl.
  - exists false, 0, st. rewrite app_nil_r. split_and!; auto. done.
  - unfold bind. fold (ask_feed cid url).
    destruct (ask_feed_cases cid url st)
      as [(a & st1 & Hrun & Hg & Hcur & Htr) | (st1 & Hrun & Hg & Hcur & Htr)];
      rewrite Hrun.
    + exists true, 1, st1. simpl. rewrite ?take_0.
      split_and!; auto; [lia.. |].
      exists 0, url, st, a. by split_and!.
    + destruct (IH st1) as (b & k & st2 & -> & Hk & Htr2 & Hf & Ht & Hb).
      exists b, (S k), st2. simpl.
      split_and!; [done | lia | by rewrite Htr2, Htr, <- app_assoc
                  | by intros Hb'; rewrite Hf | lia |].
      destruct b.
      * destruct Hb as (j & u & st3 & a & -> & Hu & Hsk & Hrun' & Hg' & Hcur').
        exists (S j), u, st3, a. split_and!; auto.
        simpl. exists st1. by split_and!.
      * destruct Hb as [Hsk Hcur']. split; [|congruence].
        exists st1. by split_and!.
Qed.

(** X5: the article resolver never raises, calls nothing but [GET], and
    asks the feeds of the category in their order, each at most once: its
    requests are a prefix of the list. When it returns [False] it has asked
    the whole list, every feed gave nothing, and the slot is as it was.
    When it returns [True] the last request is to the feed that gave the
    article: every feed before it gave nothing, that feed answered without
    an error status, and the slot holds the article made of the entry drawn
    among its first ten (its title, its link, its cleaned and truncated
    summary, the category, marked fresh). For an unknown category the list
    is empty. *)
Theorem try_get_fresh_article_requests cid st :
  let urls := match dict_get (categories st) cid with
              | Some c => rss c
              | None => []
              end in
  ∃ b k st',
    try_get_fresh_article E cid st = (Ret b, st') ∧
    k ≤ length urls ∧
    trace st' = trace st ++ (EvGet <$> take k urls) ∧
    (b = false → k = length urls) ∧
    (b = true → 0 < k) ∧
    if b then
      ∃ j url st1 a,
        k = S j ∧ urls !! j = Some url ∧
        feeds_skipped cid (take j urls) st st1 ∧
        ask_feed cid url st1 = (Ret true, st') ∧
        feed_gives cid url st1 a ∧
        current_article st' = Some (Fresh a)
    else
      feeds_skipped cid urls st st' ∧ current_article st' = current_article st.
Proof.
  unfold try_get_fresh_article, bind, get_state.
  destruct (dict_get (categories st) cid) as [c|]; simpl.
  - apply try_feeds_requests.
  - exists false, 0, st. rewrite app_nil_r. split_and!; auto. done.
Qed.

End FeedRequests.

(** The second feed of [tech] is the first that answers: two requests. *)
Example second_feed_answers :
  let E := Env (λ _ url, if String.eqb url "https://3dnews.ru/bitrix/rss.php"
                         then Some (Response 200
                                      [Entry (Some "T") (Some "https://3dnews.ru/1")
                                             (Some "s") None] [] [])
                         else Some (Response 503 [] [] []))
               (λ _ _, None) (λ _, 0) (λ _ _, true) (λ s, s) in
  let r := try_get_fresh_article E "tech" (init None) in
  r.1 = Ret true ∧
  trace r.2 = [EvGet "https://habr.com/ru/rss/hub/python/";
               EvGet "https://3dnews.ru/bitrix/rss.php"].
Proof. split; reflexivity. Qed.

(** ** What [use_fallback_article] touches *)

Section FallbackFrame.

Variable E : env.

(** X6: for a category with fallback articles, [use_fallback_article]
    returns normally without any request or message, and points the slot to
    the record it drew. In the catalogue it changes that record and no
    other: the keys and their order, every other category, every other
    field of this category and every other record of its list are as
    before, and the record keeps its title, summary and link. *)
Theorem use_fallback_article_frame cid c st :
  dict_get (categories st) cid = Some c →
  fallback_articles c ≠ [] →
  ∃ i a c' st',
    use_fallback_article E cid st = (Ret tt, st') ∧
    fallback_articles c !! i = Some a ∧
    current_article st' = Some (Shared cid i) ∧
    trace st' = trace st ∧ channel_id st' = channel_id st ∧
    map fst (categories st') = map fst (categories st) ∧
    (∀ k, k ≠ cid → dict_get (categories st') k = dict_get (categories st) k) ∧
    dict_get (categories st') cid = Some c' ∧
    (name c', emoji c', rss c', image_keywords c', fallback_images c') =
      (name c, emoji c, rss c, image_keywords c, fallback_images c) ∧
    length (fallback_articles c') = length (fallback_articles c) ∧
    (∀ j, j ≠ i → fallback_articles c' !! j = fallback_articles c !! j) ∧
    fallback_articles c' !! i =
      Some (Article (title a) (link a) (summary a) (Some cid) (Some true)).
Proof.
  intros Hc Hne.
  destruct (lookup_mod_is_Some (fallback_articles c) (rand E (clock st)) Hne) as [a Ha].
  set (i := rand E (clock st) mod length (fallback_articles c)) in *.
  exists i, a, (mark_at cid i c). eexists.
  split; [by apply (use_fallback_article_run E cid st c)|].
  cbn [current_article trace channel_id categories].
  split_and!; try done.
  - apply map_fst_dict_alter.
  - intros k Hk. by apply dict_get_alter_ne.
  - by rewrite dict_get_alter_eq, Hc.
  - simpl. by rewrite length_alter.
  - intros j Hj. simpl. by rewrite list_lookup_alter_ne.
  - simpl. by rewrite list_lookup_alter_eq, Ha.
Qed.

(** X7: the two ways [use_fallback_article] fails. An unknown category
    raises [KeyError]; a category whose fallback list is empty raises
    [IndexError]. In both cases nothing has changed: the slot still holds
    the draft it held. *)
Theorem use_fallback_article_errors cid st :
  (dict_get (categories st) cid = None →
   use_fallback_article E cid st = (Raise KeyError, st)) ∧
  (∀ c, dict_get (categories st) cid = Some c → fallback_articles c = [] →
   use_fallback_article E cid st = (Raise IndexError, st)).
Proof.
  split.
  - intros Hc. unfold use_fallback_article, bind, get_state, subscript.
    by rewrite Hc.
  - intros c Hc Hnil. unfold use_fallback_article, bind, get_state, subscript.
    rewrite Hc. unfold ret at 1. unfold random_index, bind, get_state.
    by rewrite Hnil.
Qed.

End FallbackFrame.

Lemma use_fallback_article_frame_witness :
  ∃ i a c' st',
    use_fallback_article Scenario.offline "politics" Scenario.tech_draft = (Ret tt, st') ∧
    fallback_articles politics !! i = Some a ∧
    current_article st' = Some (Shared "politics" i) ∧
    trace st' = trace Scenario.tech_draft ∧
    channel_id st' = channel_id Scenario.tech_draft ∧
    map fst (categories st') = map fst (categories Scenario.tech_draft) ∧
    (∀ k, k ≠ "politics" →
       dict_get (categories st') k = dict_get (categories Scenario.tech_draft) k) ∧
    dict_get (categories st') "politics" = Some c' ∧
    (name c', emoji c', rss c', image_keywords c', fallback_images c') =
      (name politics, emoji politics, rss politics, image_keywords politics,
       fallback_images politics) ∧
    length (fallback_articles c') = length (fallback_articles politics) ∧
    (∀ j, j ≠ i → fallback_articles c' !! j = fallback_articles politics !! j) ∧
    fallback_articles c' !! i =
      Some (Article (title a) (link a) (summary a) (Some "politics") (Some true)).
Proof.
  apply (use_fallback_article_frame Scenario.offline "politics" politics
           Scenario.tech_draft); [reflexivity | discriminate].
Defined.

Example use_fallback_article_unknown :
  use_fallback_article Scenario.offline "sports" Scenario.tech_draft =
    (Raise KeyError, Scenario.tech_draft).
Proof. reflexivity. Qed.

(** ** From a button to its handler *)

Lemma split_from_no_sep sep cur s :
  (∀ c rest, Py.contains (String sep "") (String c rest) = false → c ≠ sep) →
  Py.contains (String sep "") s = false →
  Py.split_from sep cur s = [String.rev_app cur s].
Proof.
  intros Hsep. revert cur. induction s as [|c s IH]; intros cur Hs; [done|].
  assert (Hc : c ≠ sep) by by eapply Hsep.
  simpl. apply Ascii.eqb_neq in Hc as ->.
  rewrite IH; [done|].
  simpl in Hs. apply orb_false_iff in Hs as [_ Hs]. done.
Qed.

Lemma contains_char_head sep c rest :
  Py.contains (String sep "") (String c rest) = false → c ≠ sep.
Proof.
  simpl. intros H <-. destruct (Ascii.ascii_dec c c) as [_|Hne]; [|done].
  by destruct rest.
Qed.

Definition callback_error : call :=
  Call edit_message_text "⚠️ Произошла ошибка. Попробуйте еще раз." None None None.

Definition callback_answer : call := Call answer "" None None None.

(** X8: the data that [process_category] puts on the button for more news
    comes back to [handle_callback] as the same category. For a category
    identifier without an underscore, once the press is acknowledged, the
    data of the second button of the first row runs [process_category] for
    that identifier, under the handler's [try]. *)
Theorem category_button_round_trip E fuel cid st label data :
  Py.contains "_" cid = false →
  action_keyboard cid !! 0 ≫= (λ row, row !! 1) = Some (label, data) →
  transport E (clock st) callback_answer = true →
  handle_callback E fuel data st =
    try_except (process_category E fuel ACallbackQuery cid)
      (λ _, send_with_retry E callback_error)
      (world_step 1 [EvCall callback_answer true] st).
Proof.
  intros Hcid [= <- <-] Hok.
  unfold handle_callback. fold callback_answer callback_error.
  erewrite run_bind; [|by rewrite invoke_run, Hok].
  assert (Hsplit : Py.split "_" ("category_" +:+ cid) !! 1 = Some cid).
  { change (Py.split "_" ("category_" +:+ cid))
      with ("category" :: Py.split_from "_" "" cid).
    rewrite (split_from_no_sep "_" "" cid); [done | | done].
    intros c rest. apply contains_char_head. }
  assert (Hstart : Py.startswith ("category_" +:+ cid) "category_" = true).
  { unfold Py.startswith. simpl. by destruct cid. }
  unfold try_except. rewrite Hstart, Hsplit. reflexivity.
Qed.

Lemma category_button_round_trip_witness :
  handle_callback Scenario.offline 1 "category_politics" Scenario.tech_draft =
    try_except (process_category Scenario.offline 1 ACallbackQuery "politics")
      (λ _, send_with_retry Scenario.offline callback_error)
      (world_step 1 [EvCall callback_answer true] Scenario.tech_draft).
Proof.
  apply (category_button_round_trip Scenario.offline 1 "politics" Scenario.tech_draft
           "🔄 Еще новость" "category_politics"); reflexivity.
Defined.

(** An identifier with an underscore does not come back whole. *)
Example callback_data_cut_at_underscore :
  Py.split "_" ("category_" +:+ "world_news") !! 1 = Some "world".
Proof. reflexivity. Qed.

(** ** The life of a draft *)

Definition has_draft (st : state) : Prop := is_Some (current_article st).

(** A computation that does not empty the slot. *)
Definition keeps_draft {A} (m : M A) : Prop := ∀ st, has_draft st → has_draft (m st).2.

Lemma keeps_draft_frames {A} (m : M A) : frames m → keeps_draft m.
Proof. intros Hm st Hst. by destruct (Hm st) as (n & evs & ->). Qed.

Lemma keeps_draft_bind {A B} (m : M A) (k : A → M B) :
  keeps_draft m → (∀ a, keeps_draft (k a)) → keeps_draft (bind m k).
Proof.
  intros Hm Hk st Hst. unfold bind. specialize (Hm st Hst).
  destruct (m st) as [[a|e|] st1]; simpl in *; auto. by apply Hk.
Qed.

Lemma keeps_draft_try {A} (m : M A) (h : exn → M A) :
  keeps_draft m → (∀ e, keeps_draft (h e)) → keeps_draft (try_except m h).
Proof.
  intros Hm Hh st Hst. unfold try_except. specialize (Hm st Hst).
  destruct (m st) as [[a|e|] st1]; simpl in *; auto. by apply Hh.
Qed.

Section Draft.

Variable E : env.

Lemma keeps_draft_try_get_fresh_article cid : keeps_draft (try_get_fresh_article E cid).
Proof.
  intros st Hst.
  destruct (try_get_fresh_article_cases E cid st) as (b & st' & -> & _ & _ & Hb).
  simpl. unfold has_draft. destruct b.
  - destruct Hb as (_ & a & -> & _). eauto.
  - by rewrite Hb.
Qed.

Lemma keeps_draft_use_fallback_article cid : keeps_draft (use_fallback_article E cid).
Proof.
  intros st Hst.
  unfold use_fallback_article, bind, get_state, subscript, random_index, bind,
    get_state, advance, set_current_article, update_current, bind, get_state,
    set_categories, ret, raise.
  simpl. repeat (case_match; simpl in *; simplify_eq); try done; by eexists.
Qed.

Lemma keeps_draft_preview u cid : keeps_draft (preview E u cid).
Proof.
  unfold preview, resolve_article.
  apply keeps_draft_bind.
  { apply keeps_draft_bind; [apply keeps_draft_try_get_fresh_article|].
    intros b. destruct (negb b);
      [apply keeps_draft_use_fallback_article | apply keeps_draft_frames; frame]. }
  intros _. apply keeps_draft_frames.
  pose proof frames_read_current. frame.
Qed.

Lemma keeps_draft_process_category fuel u cid :
  keeps_draft (process_category E fuel u cid).
Proof.
  revert u cid. induction fuel as [|fuel IH]; intros u cid; simpl.
  - by intros st Hst.
  - apply keeps_draft_try; [apply keeps_draft_preview|]. intros _.
    apply keeps_draft_bind; [apply keeps_draft_frames; eauto with frames|]. intros _.
    apply keeps_draft_bind; [apply keeps_draft_use_fallback_article|]. intros _.
    apply IH.
Qed.

Lemma keeps_draft_random_news fuel u : keeps_draft (random_news E fuel u).
Proof.
  unfold random_news.
  apply keeps_draft_bind; [apply keeps_draft_frames; frame|]. intros st0.
  apply keeps_draft_bind; [apply keeps_draft_frames; frame|]. intros cid.
  apply keeps_draft_process_category.
Qed.

Lemma keeps_draft_handle_message fuel text : keeps_draft (handle_message E fuel text).
Proof.
  unfold handle_message.
  repeat match goal with |- context [if ?x then _ else _] => destruct x end;
    auto using keeps_draft_process_category, keeps_draft_random_news;
    apply keeps_draft_frames; eauto with frames.
Qed.

Lemma attempts_last c k ok : EvCall c ok ∈ attempts c k ok.
Proof.
  induction k as [|k IH]; simpl; [left|]. right. right. done.
Qed.

(** What a run of [publish_article] that starts with a draft ends with:
    the draft, or an empty slot after a post that the channel accepted. *)
Lemma publish_article_outcomes st :
  has_draft st →
  has_draft (publish_article E st).2 ∨
  ∃ n evs post,
    publish_article E st = (Ret tt, with_current None (world_step n evs st))
    ∧ EvCall post true ∈ evs ∧ meth post = send_photo (channel_id st).
Proof.
  intros Hst.
  assert (Hnotice : ∀ n evs c,
            has_draft (send_with_retry E c (world_step n evs st)).2).
  { intros n evs c. by apply keeps_draft_frames; [apply frames_send_with_retry|]. }
  remember (publish_article E st) as r eqn:Hr.
  unfold publish_article in Hr. unfold bind at 1 in Hr. unfold get_state at 1 in Hr.
  destruct (current st) as [a0|] eqn:Ha0.
  2:{ left. rewrite Hr. rewrite <- (world_step_0 st) at 1. apply Hnotice. }
  unfold try_except in Hr.
  destruct (category a0) as [cid|].
  2:{ left. erewrite run_bind_raise in Hr by reflexivity. rewrite Hr.
      rewrite <- (world_step_0 st) at 1. apply Hnotice. }
  erewrite run_bind in Hr by reflexivity.
  destruct (dict_get (categories st) cid) as [c|].
  2:{ left. erewrite run_bind_raise in Hr by reflexivity. rewrite Hr.
      rewrite <- (world_step_0 st) at 1. apply Hnotice. }
  erewrite run_bind in Hr by reflexivity.
  destruct (frames_get_image_with_fallback E st) as (n1 & ev1 & Hst1).
  destruct (get_image_with_fallback E st) as [[url|e|] st1] eqn:Himg;
    simpl in Hst1; subst st1.
  2:{ left. erewrite run_bind_raise in Hr by exact Himg. rewrite Hr. apply Hnotice. }
  2:{ left. unfold bind at 1 in Hr. rewrite Himg in Hr. by rewrite Hr. }
  erewrite run_bind in Hr by exact Himg.
  erewrite run_bind in Hr
    by (unfold read_current, bind, get_state; rewrite current_world_step, Ha0;
        reflexivity).
  erewrite run_bind in Hr by reflexivity.
  cbn [channel_id world_step] in Hr.
  set (post := Call (send_photo (channel_id st)) (post_text c a0) (Some url) None Markdown)
    in *.
  destruct (send_with_retry_attempts E post (world_step n1 ev1 st))
    as (k & ok & _ & Hpost & _).
  change (State (categories st) (current_article st) (channel_id st)
                (n1 + clock st) (trace st ++ ev1)) with (world_step n1 ev1 st) in Hr.
  destruct ok.
  2:{ left. erewrite run_bind_raise in Hr by exact Hpost. rewrite Hr, world_step_step.
      apply Hnotice. }
  erewrite run_bind in Hr by exact Hpost. rewrite world_step_step in Hr.
  match type of Hr with
  | context [bind (send_with_retry E ?c) _] =>
      destruct (send_with_retry_attempts E c
                  (world_step (S k + n1) (ev1 ++ attempts post k true) st))
        as (k' & ok' & _ & Hconf & _);
      set (conf := c) in *
  end.
  destruct ok'.
  2:{ left. erewrite run_bind_raise in Hr by exact Hconf.
      rewrite Hr, world_step_step. apply Hnotice. }
  right. erewrite run_bind in Hr by exact Hconf. rewrite world_step_step in Hr.
  eexists _, _, post. split; [exact Hr|]. split; [|done].
  apply elem_of_app. left. apply elem_of_app. right. apply attempts_last.
Qed.

(** X9: a draft leaves the slot in one way only. If the slot holds a
    draft before an interaction and is empty after it, the interaction is
    the press of the publish button, the handler returned normally, and
    among the events it added is a post that the channel accepted. No
    other command, message or button empties the slot, whatever the world
    does. *)
Theorem draft_cleared_only_by_publish fuel i st :
  is_Some (current_article st) →
  current_article (handle E fuel i st).2 = None →
  i = CallbackQuery "publish" ∧
  (handle E fuel i st).1 = Ret tt ∧
  ∃ evs post,
    trace (handle E fuel i st).2 = trace st ++ evs ∧
    EvCall post true ∈ evs ∧ meth post = send_photo (channel_id st).
Proof.
  intros Hst Hnone.
  assert (Hkeeps : ∀ m : M unit, keeps_draft m → m = handle E fuel i → False).
  { intros m Hm ->. specialize (Hm st Hst). unfold has_draft in Hm.
    rewrite Hnone in Hm. by destruct Hm. }
  destruct i as [| | |text|data].
  - exfalso. eapply Hkeeps; [|reflexivity]. apply keeps_draft_frames, frames_start.
  - exfalso. eapply Hkeeps; [|reflexivity].
    apply keeps_draft_frames, frames_help_command.
  - exfalso. eapply Hkeeps; [|reflexivity]. apply keeps_draft_random_news.
  - exfalso. eapply Hkeeps; [|reflexivity]. apply keeps_draft_handle_message.
  - clear Hkeeps. simpl in *. unfold handle_callback in *.
    fold callback_answer callback_error in *.
    destruct (transport E (clock st) callback_answer) eqn:Hok.
    2:{ exfalso.
        erewrite run_bind_raise in Hnone by (rewrite invoke_run, Hok; reflexivity).
        simpl in Hnone. rewrite Hnone in Hst. by destruct Hst. }
    erewrite run_bind in Hnone by (rewrite invoke_run, Hok; reflexivity).
    erewrite run_bind by (rewrite invoke_run, Hok; reflexivity).
    set (st1 := world_step 1 [EvCall callback_answer true] st) in *.
    assert (Hst1 : has_draft st1) by done.
    destruct (Py.startswith data "category_") eqn:Hcat.
    { exfalso.
      assert (Hk : keeps_draft
                (try_except
                   (category_id <- subscript (Py.split "_" data !! 1) IndexError ;;
                    process_category E fuel ACallbackQuery category_id)
                   (λ _, send_with_retry E callback_error))).
      { apply keeps_draft_try.
        - apply keeps_draft_bind; [apply keeps_draft_frames; frame|].
          intros cid. apply keeps_draft_process_category.
        - intros _. apply keeps_draft_frames, frames_send_with_retry. }
      specialize (Hk st1 Hst1). unfold has_draft in Hk.
      rewrite Hnone in Hk. by destruct Hk. }
    destruct (String.eqb_spec data "publish") as [->|Hne].
    2:{ exfalso. simpl in Hnone. rewrite Hnone in Hst. by destruct Hst. }
    unfold try_except in *.
    destruct (publish_article_outcomes st1 Hst1)
      as [Hkeep | (n & evs & post & Hrun & Hin & Hmeth)].
    + exfalso. unfold has_draft in Hkeep.
      destruct (publish_article E st1) as [[[]|e|] st2]; simpl in *.
      * rewrite Hnone in Hkeep. by destruct Hkeep.
      * assert (Hk : has_draft (send_with_retry E callback_error st2).2)
          by by apply keeps_draft_frames; [apply frames_send_with_retry|].
        unfold has_draft in Hk. rewrite Hnone in Hk. by destruct Hk.
      * rewrite Hnone in Hkeep. by destruct Hkeep.
    + rewrite Hrun. simpl. split_and!; [done..|].
      eexists _, post. split; [by rewrite <- app_assoc|].
      split; [|done]. apply elem_of_app. by right.
Qed.

End Draft.

Lemma draft_cleared_only_by_publish_witness :
  CallbackQuery "publish" = CallbackQuery "publish" ∧
  (handle Scenario.offline 0 (CallbackQuery "publish") Scenario.tech_draft).1 = Ret tt ∧
  ∃ evs post,
    trace (handle Scenario.offline 0 (CallbackQuery "publish") Scenario.tech_draft).2
      = trace Scenario.tech_draft ++ evs ∧
    EvCall post true ∈ evs ∧ meth post = send_photo (channel_id Scenario.tech_draft).
Proof.
  apply (draft_cleared_only_by_publish Scenario.offline 0 (CallbackQuery "publish")
           Scenario.tech_draft); [by eexists | reflexivity].
Defined.

(** ** Publishing twice *)

(** X10: a draft is published once. With a transport that accepts every
    call, publishing a draft returns normally and empties the slot, the
    catalogue untouched; publishing again straight away only shows the
    warning that there is nothing to publish: no second post reaches the
    channel. *)
Theorem publish_twice E st :
  (∀ t c, transport E t c = true) →
  state_ok st →
  is_Some (current st) →
  ∃ st1,
    publish_article E st = (Ret tt, st1) ∧
    current_article st1 = None ∧
    categories st1 = categories st ∧
    publish_article E st1 = (Ret tt, world_step 1 [EvCall no_data_warning true] st1).
Proof.
  intros Ht [Hwf Hcur] [a Ha].
  assert (∃ cid c, category a = Some cid ∧ dict_get (categories st) cid = Some c)
    as (cid & c & Hcid & Hc).
  { unfold current_ok in Hcur. unfold current in Ha.
    destruct (current_article st) as [r|]; [|done]. simpl in Ha.
    destruct Hcur as (a' & cid & c & Ha' & ? & ?).
    assert (a' = a) as -> by congruence. eauto. }
  destruct (get_image_with_fallback_ret E st (conj Hwf Hcur)) as (url & st0 & Himg & _).
  destruct (frames_get_image_with_fallback E st) as (n & evs & Hst0).
  rewrite Himg in Hst0. simpl in Hst0. subst st0.
  eexists. split.
  { unfold publish_article. unfold bind at 1. unfold get_state at 1.
    rewrite Ha. unfold try_except.
    erewrite run_bind by (rewrite Hcid; reflexivity).
    erewrite run_bind by (rewrite Hc; reflexivity).
    erewrite run_bind by exact Himg.
    erewrite run_bind
      by (unfold read_current, bind, get_state; rewrite current_world_step, Ha;
          reflexivity).
    erewrite run_bind by reflexivity.
    erewrite run_bind by (rewrite send_with_retry_run, Ht; reflexivity).
    erewrite run_bind by (rewrite send_with_retry_run, Ht; reflexivity).
    reflexivity. }
  split_and!; [done..|].
  unfold publish_article. unfold bind at 1. unfold get_state at 1.
  unfold current at 1. cbn [current_article with_current set_current_article].
  simpl. fold no_data_warning. rewrite send_with_retry_run, Ht. reflexivity.
Qed.

Lemma publish_twice_witness :
  ∃ st1,
    publish_article Scenario.offline Scenario.tech_draft = (Ret tt, st1) ∧
    current_article st1 = None ∧
    categories st1 = categories Scenario.tech_draft ∧
    publish_article Scenario.offline st1 =
      (Ret tt, world_step 1 [EvCall no_data_warning true] st1).
Proof.
  apply (publish_twice Scenario.offline Scenario.tech_draft).
  - reflexivity.
  - apply tech_draft_ok.
  - by eexists.
Defined.

(** ** More of the image chain *)

Lemma find_meta_image_spec metas :
  match find_meta_image metas with
  | Some content =>
      ∃ skipped m rest,
        metas = skipped ++ m :: rest ∧
        Forall (λ m, is_image_meta m = false) skipped ∧
        is_image_meta m = true ∧ m_content m = Some content
  | None => Forall (λ m, is_image_meta m = false) metas
  end.
Proof.
  induction metas as [|m metas IH]; simpl; [constructor|].
  destruct (is_image_meta m) eqn:Hm.
  - pose proof Hm as Hm'.
    apply is_image_meta_spec in Hm' as (_ & content & Hc & _). rewrite Hc.
    exists [], m, metas. by repeat split.
  - destruct (find_meta_image metas) as [content|].
    + destruct IH as (skipped & m' & rest & -> & Hsk & Hm' & Hc).
      exists (m :: skipped), m', rest. repeat split; auto.
    + by constructor.
Qed.

Lemma startswith_http_truthy url : Py.startswith url "http" = true → Py.truthy url = true.
Proof. by destruct url. Qed.

Section ImageChain.

Variable E : env.

(** X11: the meta image wins. For a fresh draft with a link whose page is
    fetched, when some [<meta>] tag has the property [og:image] or
    [twitter:image] and a content that starts with [http], the image
    resolver returns the content of the first such tag after that one
    request: the inline images are not looked at and the stock image is
    not probed. *)
Theorem meta_image_first st a l cid c r content :
  current st = Some a →
  is_fallback a = Some false →
  link a = Some l → l ≠ "" →
  category a = Some cid → dict_get (categories st) cid = Some c →
  session_get E (clock st) l = Some r →
  find_meta_image (meta_tags r) = Some content →
  get_image_with_fallback E st = (Ret content, world_step 1 [EvGet l] st) ∧
  Py.startswith content "http" = true ∧
  ∃ skipped m rest,
    meta_tags r = skipped ++ m :: rest ∧
    Forall (λ m, is_image_meta m = false) skipped ∧
    (∃ p, m_property m = Some p ∧ p ∈ ["og:image"; "twitter:image"]) ∧
    m_content m = Some content.
Proof.
  intros Ha Hfb Hl Hne Hcid Hc Hr Hmeta.
  pose proof (find_meta_image_spec (meta_tags r)) as Hspec. rewrite Hmeta in Hspec.
  destruct Hspec as (skipped & m & rest & Heq & Hsk & Hm & Hcontent).
  apply is_image_meta_spec in Hm as (Hprop & content' & Hc' & Hhttp).
  assert (content' = content) as -> by congruence.
  split; [|split; [done | by eauto 10]].
  assert (Hx : extract_image_from_article E st =
               (Ret (Some content), world_step 1 [EvGet l] st)).
  { unfold extract_image_from_article, bind, get_state. rewrite Ha, Hl.
    destruct l as [|ch l]; [done|]. simpl.
    unfold try_except, bind, http_get, bind, get_state, emit, advance, subscript.
    simpl. rewrite Hr. unfold ret at 1. by rewrite Hmeta. }
  assert (Hai : article_image E a st =
                (Ret (Some content), world_step 1 [EvGet l] st)).
  { unfold article_image. rewrite Hfb. simpl. unfold try_except.
    erewrite run_bind by exact Hx. cbv iota.
    by rewrite (startswith_http_truthy content Hhttp). }
  unfold get_image_with_fallback. unfold bind at 1. unfold get_state at 1.
  rewrite Ha.
  erewrite run_bind by (rewrite Hcid; reflexivity).
  erewrite run_bind by (rewrite Hc; reflexivity).
  erewrite run_bind by exact Hai.
  reflexivity.
Qed.

(** X12: the extractor is safe to call. It never raises. When the slot is
    empty, or the draft has no link or an empty one, it makes no request
    and returns nothing. Otherwise it makes exactly one [GET], of the link,
    and changes nothing else; when the request fails it returns nothing,
    and when the page comes it returns the content of the first image
    [<meta>] tag, or else the first inline image that qualifies, or else
    nothing. A URL it returns always starts with [http]. *)
Theorem extract_image_from_article_safe st :
  ∃ img st',
    extract_image_from_article E st = (Ret img, st') ∧
    match current st with
    | Some a =>
        match link a with
        | Some l =>
            if Py.truthy l then
              st' = world_step 1 [EvGet l] st ∧
              match session_get E (clock st) l with
              | Some r =>
                  match img with
                  | Some url =>
                      (∃ skipped m rest,
                         meta_tags r = skipped ++ m :: rest ∧
                         Forall (λ m, is_image_meta m = false) skipped ∧
                         is_image_meta m = true ∧ m_content m = Some url) ∨
                      (Forall (λ m, is_image_meta m = false) (meta_tags r) ∧
                       ∃ skipped rest,
                         img_srcs r = skipped ++ url :: rest ∧
                         Forall (λ x, image_like x = false) skipped ∧
                         image_like url = true)
                  | None =>
                      Forall (λ m, is_image_meta m = false) (meta_tags r) ∧
                      Forall (λ x, image_like x = false) (img_srcs r)
                  end
              | None => img = None
              end
            else st' = st ∧ img = None
        | None => st' = st ∧ img = None
        end
    | None => st' = st ∧ img = None
    end ∧
    ∀ url, img = Some url → Py.startswith url "http" = true.
Proof.
  unfold extract_image_from_article, bind, get_state.
  destruct (current st) as [a|] eqn:Ha; [|by eexists _, _; split_and!; eauto].
  destruct (link a) as [l|] eqn:Hl; [|by eexists _, _; split_and!; eauto].
  destruct l as [|ch l]; simpl; [by eexists _, _; split_and!; eauto|].
  unfold try_except, bind, http_get, bind, get_state, emit, advance, subscript.
  simpl.
  destruct (session_get E (clock st) (String ch l)) as [r|]; simpl.
  2:{ eexists _, _. by split_and!. }
  pose proof (find_meta_image_spec (meta_tags r)) as Hmeta.
  pose proof (find_inline_image_spec (img_srcs r)) as Himg.
  destruct (find_meta_image (meta_tags r)) as [content|].
  - eexists _, _. split_and!; [reflexivity | reflexivity | by left |].
    intros url [= <-].
    destruct Hmeta as (_ & m & _ & _ & _ & Hm & Hc).
    apply is_image_meta_spec in Hm as (_ & content' & Hc' & Hhttp). congruence.
  - unfold ret. destruct (find_inline_image (img_srcs r)) as [src|].
    + eexists _, _. split_and!; [reflexivity | reflexivity | |].
      * right. split; [done|].
        destruct Himg as (skipped & rest & Heq & Hlike & Hsk). by exists skipped, rest.
      * intros url [= <-]. destruct Himg as (_ & _ & _ & Hlike & _).
        by apply image_like_spec in Hlike as [? _].
    + eexists _, _. by split_and!.
Qed.

(** The stock image step: its only request is one [HEAD] of the URL built
    from a keyword of the category. *)
Lemma unsplash_image_trace c st :
  ∃ stock st' evs,
    unsplash_image E c st = (Ret stock, st') ∧
    trace st' = trace st ++ evs ∧
    categories st' = categories st ∧ current_article st' = current_article st ∧
    (evs = [] ∧ stock = None ∨
     ∃ kw, kw ∈ image_keywords c ∧ evs = [EvHead (unsplash_url kw)] ∧
           (stock = None ∨ stock = Some (unsplash_url kw))).
Proof.
  unfold unsplash_image, try_except, random_choice, random_index, http_head,
    bind, get_state, emit, advance, subscript, ret, raise.
  cbn -[Nat.modulo Nat.eqb].
  repeat (case_match; cbn -[Nat.modulo Nat.eqb] in *; simplify_eq);
    eexists _, _, _; (split; [reflexivity|]); cbn [trace categories current_article];
    try (split_and!; [symmetry; apply app_nil_r | done | done | by left]);
    (split_and!; [reflexivity | done | done |]);
    right; eexists; (split; [by eapply list_elem_of_lookup_2|]); eauto.
Qed.

(** X13: a fallback draft never costs a page fetch. When the draft is not
    marked fresh, the image resolver makes no [GET]: at most it probes one
    stock URL built from a keyword of the category, and it returns either
    that URL or an entry of the category's fallback image list, leaving
    the draft and the catalogue as they were. *)
Theorem fallback_draft_image st a cid c :
  current st = Some a →
  is_fallback a ≠ Some false →
  category a = Some cid → dict_get (categories st) cid = Some c →
  fallback_images c ≠ [] →
  ∃ url st' evs,
    get_image_with_fallback E st = (Ret url, st') ∧
    trace st' = trace st ++ evs ∧
    categories st' = categories st ∧ current_article st' = current_article st ∧
    (evs = [] ∧ url ∈ fallback_images c ∨
     ∃ kw, kw ∈ image_keywords c ∧ evs = [EvHead (unsplash_url kw)] ∧
           (url = unsplash_url kw ∨ url ∈ fallback_images c)).
Proof.
  intros Ha Hfb Hcid Hc Hne.
  unfold get_image_with_fallback. unfold bind at 1. unfold get_state at 1.
  rewrite Ha.
  erewrite run_bind by (rewrite Hcid; reflexivity).
  erewrite run_bind by (rewrite Hc; reflexivity).
  assert (Hskip : article_image E a st = (Ret None, st)).
  { unfold article_image. destruct (is_fallback a) as [[]|]; done. }
  erewrite run_bind by exact Hskip.
  destruct (unsplash_image_trace c st)
    as (stock & st1 & evs & Hstock & Htr & Hcats & Hcur & Hevs).
  erewrite run_bind by exact Hstock.
  destruct stock as [url|].
  - exists url, st1, evs. split_and!; auto.
    destruct Hevs as [[_ [=]] | (kw & Hkw & -> & [[=] | [= ->]])].
    right. exists kw. auto.
  - destruct (random_choice_run E (fallback_images c) st1 Hne) as (url & -> & Hurl).
    apply list_elem_of_lookup_2 in Hurl.
    exists url. eexists _, evs. split_and!; [done | | done | done |].
    + simpl. by rewrite Htr, app_nil_r.
    + destruct Hevs as [[-> _] | (kw & Hkw & -> & _)]; [by left|].
      right. exists kw. auto.
Qed.

End ImageChain.

Lemma fallback_draft_image_witness :
  ∃ url st' evs,
    get_image_with_fallback Scenario.offline Scenario.tech_draft = (Ret url, st') ∧
    trace st' = trace Scenario.tech_draft ++ evs ∧
    categories st' = categories Scenario.tech_draft ∧
    current_article st' = current_article Scenario.tech_draft ∧
    (evs = [] ∧ url ∈ fallback_images tech ∨
     ∃ kw, kw ∈ image_keywords tech ∧ evs = [EvHead (unsplash_url kw)] ∧
           (url = unsplash_url kw ∨ url ∈ fallback_images tech)).
Proof.
  apply (fallback_draft_image Scenario.offline Scenario.tech_draft
           (mark_fallback "tech"
              (Article "Новые технологии в IT" None
                 "Современные технологии развиваются быстрыми темпами..." None None))
           "tech" (mark_at "tech" 0 tech));
    [reflexivity | discriminate | reflexivity | reflexivity | discriminate].
Defined.

Lemma meta_image_first_witness :
  let page := Response 200 []
                [Meta (Some "description") (Some "http://d");
                 Meta (Some "og:image") (Some "https://x/y.jpg")]
                ["https://x/first.png"] in
  let E := Env (λ _ _, Some page) (λ _ _, Some 200) (λ _, 0) (λ _ _, true) (λ s, s) in
  let draft := Article "t" (Some "https://site/post") "s" (Some "tech") (Some false) in
  let st := State initial_categories (Some (Fresh draft)) None 0 [] in
  get_image_with_fallback E st =
    (Ret "https://x/y.jpg", world_step 1 [EvGet "https://site/post"] st) ∧
  Py.startswith "https://x/y.jpg" "http" = true ∧
  ∃ skipped m rest,
    meta_tags page = skipped ++ m :: rest ∧
    Forall (λ m, is_image_meta m = false) skipped ∧
    (∃ p, m_property m = Some p ∧ p ∈ ["og:image"; "twitter:image"]) ∧
    m_content m = Some "https://x/y.jpg".
Proof.
  intros page E draft st.
  apply (meta_image_first E st draft "https://site/post" "tech" tech page
           "https://x/y.jpg"); (reflexivity || discriminate).
Defined.

(** ** More of [process_category] *)

Definition critical_call : call := Call reply_text critical_notice None None Markdown.

Lemma inv_tech st : inv st → is_Some (dict_get (categories st) "tech").
Proof.
  intros [_ He].
  assert (H : dict_get (erase_marks (categories st)) "tech" = Some tech)
    by by rewrite He.
  rewrite dict_get_erase_marks in H.
  destruct (dict_get (categories st) "tech"); [eauto | done].
Qed.

Section Handler.

Variable E : env.

(** The part of the preview that follows the resolver only talks to the
    world. *)
Lemma frames_preview_rest u cid :
  frames (image_url <- get_image_with_fallback E ;;
          st <- get_state ;;
          c <- subscript (dict_get (categories st) cid) KeyError ;;
          a <- read_current ;;
          send_news_message E u image_url (post_text c a) (Some (action_keyboard cid))).
Proof. pose proof frames_read_current. frame. Qed.

(** X14: the last request wins. For a category of the catalogue, whatever
    the slot held and whatever becomes of the message, [process_category]'s
    [try] body leaves in the slot a draft of the category asked for, with
    its origin flag: fresh with a link, or fallback. A preview that could
    not be delivered still replaces the draft. *)
Theorem preview_leaves_draft u cid c st :
  catalogue_wf (categories st) →
  dict_get (categories st) cid = Some c →
  ∃ a,
    current (preview E u cid st).2 = Some a ∧
    category a = Some cid ∧
    (is_fallback a = Some true ∨ is_fallback a = Some false ∧ is_Some (link a)).
Proof.
  intros Hwf Hc.
  destruct (resolve_article_ret E cid c st Hwf Hc) as (st1 & a & Hres & Ha & Hcid & Hflag).
  exists a. split; [|done].
  unfold preview. erewrite run_bind by exact Hres.
  destruct (frames_preview_rest u cid st1) as (n & evs & ->). done.
Qed.

(** The preview in a world whose transport works. *)
Lemma preview_returns u cid st :
  (∀ t c, transport E t c = true) →
  inv st →
  is_Some (dict_get (categories st) cid) →
  ∃ st' a,
    preview E u cid st = (Ret tt, st') ∧ inv st' ∧
    current st' = Some a ∧ category a = Some cid.
Proof.
  intros Htransport Hinv [c0 Hc0].
  destruct (resolve_article_ret E cid c0 st (proj1 (proj1 Hinv)) Hc0)
    as (st1 & a & Hres & Ha & Hcid & _).
  assert (Hinv1 : inv st1).
  { pose proof (preserves_resolve_article E cid st Hinv) as H. by rewrite Hres in H. }
  destruct (get_image_with_fallback_ret E st1 (proj1 Hinv1)) as (img & st2 & Himg & _).
  destruct (frames_get_image_with_fallback E st1) as (n2 & ev2 & Hst2).
  rewrite Himg in Hst2. simpl in Hst2. subst st2.
  destruct (inv_defined st st1 cid Hinv Hinv1 (ex_intro _ c0 Hc0)) as [c Hc].
  exists (world_step 1
            (attempts (photo_call u img (post_text c a) (Some (action_keyboard cid)))
                      0 true)
            (world_step n2 ev2 st1)), a.
  split.
  { unfold preview.
    erewrite run_bind by exact Hres.
    erewrite run_bind by exact Himg.
    erewrite run_bind by reflexivity.
    erewrite run_bind by (simpl; rewrite Hc; reflexivity).
    erewrite run_bind
      by (unfold read_current, bind, get_state; rewrite current_world_step, Ha;
          reflexivity).
    unfold send_news_message, try_except.
    destruct u; simpl; rewrite send_with_retry_run, Htransport; reflexivity. }
  done.
Qed.

(** X15: when the transport refuses every call, [process_category] for a
    category of the catalogue raises at its first level and does not call
    itself: the photo, the text and the notice are each tried three times,
    the recovery stops at the notice, and the new draft stays in the
    slot. *)
Theorem process_category_transport_down fuel u cid st :
  (∀ t c, transport E t c = false) →
  inv st →
  is_Some (dict_get (categories st) cid) →
  ∃ st' a evs img cap,
    process_category E (S fuel) u cid st = (Raise TelegramError, st') ∧
    current st' = Some a ∧ category a = Some cid ∧
    trace st' =
      evs ++ attempts (photo_call u img cap (Some (action_keyboard cid))) 2 false
          ++ attempts (text_call u cap (Some (action_keyboard cid))) 2 false
          ++ attempts critical_call 2 false.
Proof.
  intros Htransport Hinv [c0 Hc0].
  destruct (resolve_article_ret E cid c0 st (proj1 (proj1 Hinv)) Hc0)
    as (st1 & a & Hres & Ha & Hcid & _).
  assert (Hinv1 : inv st1).
  { pose proof (preserves_resolve_article E cid st Hinv) as H. by rewrite Hres in H. }
  destruct (get_image_with_fallback_ret E st1 (proj1 Hinv1)) as (img & st2 & Himg & _).
  destruct (frames_get_image_with_fallback E st1) as (n2 & ev2 & Hst2).
  rewrite Himg in Hst2. simpl in Hst2. subst st2.
  destruct (inv_defined st st1 cid Hinv Hinv1 (ex_intro _ c0 Hc0)) as [c Hc].
  set (st2 := world_step n2 ev2 st1).
  set (mk := Some (action_keyboard cid)).
  set (cap := post_text c a).
  assert (Hpreview :
    preview E u cid st =
      (Raise TelegramError,
       world_step 6 (attempts (photo_call u img cap mk) 2 false ++
                     attempts (text_call u cap mk) 2 false) st2)).
  { unfold preview.
    erewrite run_bind by exact Hres.
    erewrite run_bind by exact Himg.
    erewrite run_bind by reflexivity.
    erewrite run_bind by (simpl; rewrite Hc; reflexivity).
    erewrite run_bind
      by (unfold read_current, bind, get_state; rewrite current_world_step, Ha;
          reflexivity).
    unfold send_news_message, try_except.
    destruct u; simpl; rewrite send_with_retry_run, !Htransport;
      rewrite send_with_retry_run, !Htransport, world_step_step; reflexivity. }
  eexists _, a, (trace st2), img, cap. split.
  { simpl. unfold try_except. rewrite Hpreview.
    fold critical_call.
    erewrite run_bind_raise; [reflexivity|].
    rewrite send_with_retry_run, !Htransport. reflexivity. }
  split_and!; [done..|].
  simpl. by rewrite <- !app_assoc.
Qed.

(** X16: a button for a category the catalogue does not have. With a
    transport that accepts every call, [process_category] for an unknown
    identifier makes no request for it, shows the notice about fallback
    news, and runs itself once for [tech]: that second level returns
    normally with a draft of [tech] in the slot. *)
Theorem process_category_unknown fuel u cid st :
  (∀ t c, transport E t c = true) →
  inv st →
  dict_get (categories st) cid = None →
  ∃ st1 st' a,
    trace st1 = trace st ++ [EvCall critical_call true] ∧
    process_category E (S (S fuel)) u cid st =
      process_category E (S fuel) u "tech" st1 ∧
    process_category E (S fuel) u "tech" st1 = (Ret tt, st') ∧
    current st' = Some a ∧ category a = Some "tech".
Proof.
  intros Htransport Hinv Hnone.
  assert (Hpreview : preview E u cid st = (Raise KeyError, st)).
  { unfold preview, resolve_article.
    erewrite run_bind_raise; [reflexivity|].
    erewrite run_bind
      by (unfold try_get_fresh_article, bind, get_state; rewrite Hnone; reflexivity).
    simpl. unfold use_fallback_article, bind, get_state, subscript.
    by rewrite Hnone. }
  destruct (inv_tech st Hinv) as [c Hc].
  destruct (catalogue_wf_get _ _ _ (proj1 (proj1 Hinv)) Hc) as (Hne & _).
  set (st0 := world_step 1 (attempts critical_call 0 true) st).
  pose proof (use_fallback_article_run E "tech" st0 c Hc Hne) as Hfb. cbv zeta in Hfb.
  pose proof (preserves_use_fallback_article E "tech" st0 Hinv) as Hinv1.
  rewrite Hfb in Hinv1. simpl in Hinv1.
  match type of Hfb with _ = (_, ?s) => set (st1 := s) in * end.
  destruct (preview_returns u "tech" st1 Htransport Hinv1) as (st' & a & Hrun & _ & Ha & Hcid).
  { apply (inv_tech st1 Hinv1). }
  exists st1, st', a. split_and!; [done | | | done | done].
  - change (process_category E (S (S fuel)) u cid st)
      with (try_except (preview E u cid)
              (λ _, send_with_retry E critical_call ;;;
                    use_fallback_article E "tech" ;;;
                    process_category E (S fuel) u "tech") st).
    unfold try_except. rewrite Hpreview.
    erewrite run_bind by (rewrite send_with_retry_run, Htransport; reflexivity).
    fold st0. erewrite run_bind by exact Hfb. reflexivity.
  - simpl. unfold try_except. by rewrite Hrun.
Qed.

End Handler.

Lemma preview_leaves_draft_witness :
  ∃ a,
    current (preview Scenario.down ACallbackQuery "politics" Scenario.tech_draft).2
      = Some a ∧
    category a = Some "politics" ∧
    (is_fallback a = Some true ∨ is_fallback a = Some false ∧ is_Some (link a)).
Proof.
  apply (preview_leaves_draft Scenario.down ACallbackQuery "politics" politics
           Scenario.tech_draft); [apply tech_draft_ok | reflexivity].
Defined.

Lemma process_category_transport_down_witness :
  ∃ st' a evs img cap,
    process_category Scenario.down 1 AnUpdate "tech" (init None)
      = (Raise TelegramError, st') ∧
    current st' = Some a ∧ category a = Some "tech" ∧
    trace st' =
      evs ++ attempts (photo_call AnUpdate img cap (Some (action_keyboard "tech"))) 2 false
          ++ attempts (text_call AnUpdate cap (Some (action_keyboard "tech"))) 2 false
          ++ attempts critical_call 2 false.
Proof.
  apply (process_category_transport_down Scenario.down 0 AnUpdate "tech" (init None)).
  - reflexivity.
  - apply init_inv.
  - by eexists.
Defined.

Lemma process_category_unknown_witness :
  ∃ st1 st' a,
    trace st1 = trace (init None) ++ [EvCall critical_call true] ∧
    process_category Scenario.offline 2 ACallbackQuery "sports" (init None) =
      process_category Scenario.offline 1 ACallbackQuery "tech" st1 ∧
    process_category Scenario.offline 1 ACallbackQuery "tech" st1 = (Ret tt, st') ∧
    current st' = Some a ∧ category a = Some "tech".
Proof.
  apply (process_category_unknown Scenario.offline 0 ACallbackQuery "sports" (init None)).
  - reflexivity.
  - apply init_inv.
  - reflexivity.
Defined.

(** ** Replies that do not touch the draft *)

Definition guidance : call :=
  Call reply_text "Используйте кнопки меню для навигации" None None None.

Section Replies.

Variable E : env.

(** X17: what is not a request for news only costs one reply. The
    commands [/start] and [/help] and every text other than the three
    labels that ask for news are answered by one text reply sent through
    the retry wrapper, the guidance message for a text that is not the
    help label: no request is made, no fuel is needed, and the draft and
    the catalogue are as before. *)
Theorem static_replies fuel i st :
  i = CmdStart ∨ i = CmdHelp ∨
  (∃ text, i = Message text ∧
           text ∉ ["📰 Случайная новость"; "💻 Технологии"; "🏛 Политика"]) →
  ∃ (c : call) (k : nat) (ok : bool),
    k < 3 ∧
    handle E fuel i st =
      (if ok then Ret tt else Raise TelegramError,
       world_step (S k) (attempts c k ok) st) ∧
    meth c = reply_text ∧ photo c = None ∧
    (∀ text, i = Message text → text ≠ "ℹ️ Помощь" → c = guidance).
Proof.
  intros Hi.
  assert (Hrun : ∃ c, handle E fuel i st = send_with_retry E c st ∧
                      meth c = reply_text ∧ photo c = None ∧
                      (∀ text, i = Message text → text ≠ "ℹ️ Помощь" → c = guidance)).
  { destruct Hi as [-> | [-> | (text & -> & Hnot)]].
    - eexists. split; [reflexivity|]. split_and!; [done..|]. intros text [=].
    - eexists. split; [reflexivity|]. split_and!; [done..|]. intros text [=].
    - simpl. unfold handle_message.
      destruct (String.eqb_spec text "📰 Случайная новость") as [->|_].
      { exfalso. apply Hnot. left. }
      destruct (String.eqb_spec text "💻 Технологии") as [->|_].
      { exfalso. apply Hnot. right. left. }
      destruct (String.eqb_spec text "🏛 Политика") as [->|_].
      { exfalso. apply Hnot. right. right. left. }
      destruct (String.eqb_spec text "ℹ️ Помощь") as [->|Hhelp].
      + eexists. split; [reflexivity|]. split_and!; [done..|].
        intros text [= <-]. done.
      + exists guidance. done. }
  destruct Hrun as (c & -> & Hm & Hp & Hg).
  destruct (send_with_retry_attempts E c st) as (k & ok & Hk & Hrun & _).
  exists c, k, ok. done.
Qed.

(** X18: the acknowledgement of a button press is outside the handler's
    [try] and is not retried. If it is refused, the handler raises at once
    and does nothing else, whatever the button was; if it is accepted and
    the data is neither a category button nor the publish button, the
    handler returns having done nothing else. *)
Theorem handle_callback_edges fuel data st :
  (transport E (clock st) callback_answer = false →
   handle_callback E fuel data st =
     (Raise TelegramError, world_step 1 [EvCall callback_answer false] st)) ∧
  (transport E (clock st) callback_answer = true →
   Py.startswith data "category_" = false → data ≠ "publish" →
   handle_callback E fuel data st =
     (Ret tt, world_step 1 [EvCall callback_answer true] st)).
Proof.
  unfold handle_callback. fold callback_answer. split.
  - intros Hno. erewrite run_bind_raise; [reflexivity|]. by rewrite invoke_run, Hno.
  - intros Hok Hcat Hne.
    erewrite run_bind by (rewrite invoke_run, Hok; reflexivity).
    unfold try_except. rewrite Hcat.
    destruct (String.eqb_spec data "publish"); done.
Qed.

(** X21: a photo that gets through ends the delivery. When the transport
    accepts the photo message at one of its three attempts, after [k]
    refusals, [send_news_message] returns normally having made these
    [k + 1] calls and no other: no text message is attempted. *)
Theorem send_news_message_photo_ok u img cap mk st k :
  k < 3 →
  (∀ j, j < k → transport E (j + clock st) (photo_call u img cap mk) = false) →
  transport E (k + clock st) (photo_call u img cap mk) = true →
  send_news_message E u img cap mk st =
    (Ret tt, world_step (S k) (attempts (photo_call u img cap mk) k true) st) ∧
  text_attempts (attempts (photo_call u img cap mk) k true) = 0.
Proof.
  intros Hk Hfail Hok. split.
  - unfold send_news_message, try_except.
    assert (Hphoto : send_with_retry E (photo_call u img cap mk) st =
                     (Ret tt, world_step (S k) (attempts (photo_call u img cap mk) k true) st)).
    { unfold send_with_retry, max_retries_default.
      by apply retry_loop_succeeds. }
    unfold photo_call in *. destruct u; simpl in *; by rewrite Hphoto.
  - unfold text_attempts, photo_call.
    destruct k as [|[|[|k]]]; [by destruct u..|lia].
Qed.

End Replies.

Lemma static_replies_witness :
  ∃ (c : call) (k : nat) (ok : bool),
    k < 3 ∧
    handle Scenario.offline 0 (Message "привет") Scenario.tech_draft =
      (if ok then Ret tt else Raise TelegramError,
       world_step (S k) (attempts c k ok) Scenario.tech_draft) ∧
    meth c = reply_text ∧ photo c = None ∧
    (∀ text, Message "привет" = Message text → text ≠ "ℹ️ Помощь" → c = guidance).
Proof.
  apply (static_replies Scenario.offline 0 (Message "привет") Scenario.tech_draft).
  right. right. exists "привет". split; [reflexivity|].
  intros H. repeat (apply elem_of_cons in H as [H|H]; [discriminate H|]).
  by apply elem_of_nil in H.
Defined.

Lemma send_news_message_photo_ok_witness :
  let E := Env (λ _ _, None) (λ _ _, None) (λ _, 0) (λ t _, Nat.leb 1 t) (λ s, s) in
  send_news_message E ACallbackQuery "http://img" "caption" None (init None) =
    (Ret tt,
     world_step 2 (attempts (photo_call ACallbackQuery "http://img" "caption" None) 1 true)
       (init None)) ∧
  text_attempts (attempts (photo_call ACallbackQuery "http://img" "caption" None) 1 true)
    = 0.
Proof.
  intros E.
  apply (send_news_message_photo_ok E ACallbackQuery "http://img" "caption" None
           (init None) 1); [lia | | reflexivity].
  intros j Hj. by replace j with 0 by lia.
Defined.

(** ** More of the summary *)

(** X19: cutting a summary twice changes nothing more, and a stored
    summary never has more than 253 characters. *)
Theorem truncate_summary_idempotent s :
  truncate_summary (truncate_summary s) = truncate_summary s ∧
  String.length (truncate_summary s) ≤ 253.
Proof.
  destruct (Nat.le_gt_cases (String.length s) 250) as [Hshort|Hlong].
  - rewrite !truncate_summary_short by (by rewrite ?truncate_summary_short).
    split; [done | lia].
  - assert (Hlen : String.length (truncate_summary s) = 253).
    { rewrite truncate_summary_long, length_append, length_slice_to by done.
      change (String.length "...") with 3. lia. }
    split; [|lia].
    rewrite (truncate_summary_long (truncate_summary s)) by lia.
    rewrite (truncate_summary_long s) at 1 by done.
    rewrite slice_to_append, slice_to_idemp; [by rewrite truncate_summary_long|].
    rewrite length_slice_to. lia.
Qed.

(** ** [random_news] *)

(** X20: the random command draws among the keys of the catalogue. With
    an empty catalogue it raises [IndexError] and does nothing; otherwise
    it runs [process_category] for a key of the catalogue, after the draw
    and nothing else, and every key is the one drawn for some value of the
    generator. *)
Theorem random_news_draws E fuel u st :
  (categories st = [] → random_news E fuel u st = (Raise IndexError, st)) ∧
  (categories st ≠ [] →
   ∃ cid, cid ∈ map fst (categories st) ∧
          random_news E fuel u st =
            process_category E fuel u cid (world_step 1 [] st)) ∧
  (∀ i cid, map fst (categories st) !! i = Some cid → rand E (clock st) = i →
            random_news E fuel u st =
              process_category E fuel u cid (world_step 1 [] st)).
Proof.
  assert (Heq : random_news E fuel u st =
                bind (random_choice E (map fst (categories st)))
                     (process_category E fuel u) st) by reflexivity.
  rewrite Heq. clear Heq. split_and!.
  - intros ->. reflexivity.
  - intros Hne.
    assert (Hne' : map fst (categories st) ≠ []) by by destruct (categories st).
    destruct (random_choice_run E (map fst (categories st)) st Hne') as (cid & Hrun & Hcid).
    exists cid. split; [by eapply list_elem_of_lookup_2|].
    by erewrite run_bind by exact Hrun.
  - intros i cid Hi Hrand.
    assert (Hne' : map fst (categories st) ≠ []).
    { intros Hnil. by rewrite Hnil in Hi. }
    destruct (random_choice_run E (map fst (categories st)) st Hne') as (cid' & Hrun & Hcid).
    rewrite Hrand, Nat.mod_small in Hcid by by eapply lookup_lt_Some.
    assert (cid' = cid) as -> by congruence.
    by erewrite run_bind by exact Hrun.
Qed.

Example random_news_politics :
  let E := Env (λ _ _, None) (λ _ _, None) (λ t, match t with 0 => 1 | _ => 0 end)
               (λ _ _, true) (λ s, s) in
  category <$> current (random_news E 1 AnUpdate (init None)).2 = Some (Some "politics").
Proof. reflexivity. Qed.

(** ** Who posts to the channel *)

(** A computation all of whose events are other than a channel delivery. *)
Definition off_channel {A} (m : M A) : Prop :=
  ∀ st, ∃ evs, trace (m st).2 = trace st ++ evs ∧
               Forall (λ ev, ¬ is_channel_delivery ev) evs.

Lemma off_channel_silent {A} (m : M A) :
  (∀ st, trace (m st).2 = trace st) → off_channel m.
Proof. intros H st. exists []. by rewrite app_nil_r. Qed.

Lemma off_channel_bind {A B} (m : M A) (k : A → M B) :
  off_channel m → (∀ a, off_channel (k a)) → off_channel (bind m k).
Proof.
  intros Hm Hk st. unfold bind.
  destruct (Hm st) as (evs & Htr & Hevs).
  destruct (m st) as [[a|e|] st1]; simpl in *; eauto.
  destruct (Hk a st1) as (evs' & Htr' & Hevs').
  exists (evs ++ evs'). split; [by rewrite Htr', Htr, app_assoc | by apply Forall_app].
Qed.

Lemma off_channel_try {A} (m : M A) (h : exn → M A) :
  off_channel m → (∀ e, off_channel (h e)) → off_channel (try_except m h).
Proof.
  intros Hm Hh st. unfold try_except.
  destruct (Hm st) as (evs & Htr & Hevs).
  destruct (m st) as [[a|e|] st1]; simpl in *; eauto.
  destruct (Hh e st1) as (evs' & Htr' & Hevs').
  exists (evs ++ evs'). split; [by rewrite Htr', Htr, app_assoc | by apply Forall_app].
Qed.

Lemma off_channel_ret {A} (a : A) : off_channel (ret a).
Proof. by apply off_channel_silent. Qed.

Lemma off_channel_raise {A} e : off_channel (@raise A e).
Proof. by apply off_channel_silent. Qed.

Lemma off_channel_subscript {A} (o : option A) e : off_channel (subscript o e).
Proof. destruct o; [apply off_channel_ret | apply off_channel_raise]. Qed.

Lemma off_channel_get_state : off_channel get_state.
Proof. by apply off_channel_silent. Qed.

Lemma off_channel_advance : off_channel advance.
Proof. by apply off_channel_silent. Qed.

Lemma off_channel_set_current_article r : off_channel (set_current_article r).
Proof. by apply off_channel_silent. Qed.

Lemma off_channel_set_categories c : off_channel (set_categories c).
Proof. by apply off_channel_silent. Qed.

Lemma off_channel_emit ev : ¬ is_channel_delivery ev → off_channel (emit ev).
Proof. intros Hev st. exists [ev]. split; [done|]. by repeat constructor. Qed.

Lemma not_delivery_get url : ¬ is_channel_delivery (EvGet url).
Proof. by intros (c & ok & chat & [=] & _). Qed.

Lemma not_delivery_head url : ¬ is_channel_delivery (EvHead url).
Proof. by intros (c & ok & chat & [=] & _). Qed.

Lemma not_delivery_sleep n : ¬ is_channel_delivery (EvSleep n).
Proof. by intros (c & ok & chat & [=] & _). Qed.

Lemma not_delivery_call c ok :
  (∀ chat, meth c ≠ send_photo chat) → ¬ is_channel_delivery (EvCall c ok).
Proof. intros Hc (c' & ok' & chat & [= <- <-] & Hm). by apply (Hc chat). Qed.

Create HintDb off_channel.
#[export] Hint Resolve off_channel_ret off_channel_raise off_channel_subscript
  off_channel_get_state off_channel_advance off_channel_set_current_article
  off_channel_set_categories off_channel_emit not_delivery_get not_delivery_head
  not_delivery_sleep : off_channel.

Ltac off_channel_step :=
  first
    [ solve [eauto with off_channel]
    | apply off_channel_bind; [| intros ?]
    | apply off_channel_try; [| intros ?]
    | match goal with
      | |- context [match ?x with _ => _ end] => destruct x
      end ].
Ltac off_channel := repeat off_channel_step.

Section Channel.

Variable E : env.

Lemma off_channel_invoke c :
  (∀ chat, meth c ≠ send_photo chat) → off_channel (invoke E c).
Proof.
  intros Hc st. rewrite invoke_run. eexists. split; [reflexivity|].
  repeat constructor. by apply not_delivery_call.
Qed.

Lemma off_channel_send_with_retry c :
  (∀ chat, meth c ≠ send_photo chat) → off_channel (send_with_retry E c).
Proof.
  intros Hc. unfold send_with_retry.
  generalize 0 at 1. generalize max_retries_default at 2.
  intros todo. induction todo as [|todo IH]; intros a; simpl.
  - apply off_channel_ret.
  - apply off_channel_try; [by apply off_channel_invoke|]. intros e.
    destruct (Nat.eqb a _); [apply off_channel_raise|].
    apply off_channel_bind; [|auto].
    apply off_channel_emit, not_delivery_sleep.
Qed.

Lemma off_channel_random_choice {A} (l : list A) : off_channel (random_choice E l).
Proof. unfold random_choice, random_index. off_channel. Qed.

Lemma off_channel_http_get url : off_channel (http_get E url).
Proof. unfold http_get. off_channel. Qed.

Lemma off_channel_http_head url : off_channel (http_head E url).
Proof. unfold http_head. off_channel. Qed.

Hint Resolve off_channel_random_choice off_channel_http_get off_channel_http_head
  : off_channel.

Lemma off_channel_try_feeds cid urls : off_channel (try_feeds E cid urls).
Proof.
  induction urls as [|url urls IH]; simpl; [apply off_channel_ret|].
  apply off_channel_bind.
  - apply off_channel_try; [|intros _; apply off_channel_ret].
    unfold try_feed, raise_for_status, getattr. off_channel.
  - intros []; [apply off_channel_ret | apply IH].
Qed.

Lemma off_channel_try_get_fresh_article cid : off_channel (try_get_fresh_article E cid).
Proof.
  unfold try_get_fresh_article.
  apply off_channel_bind; [apply off_channel_get_state|]. intros st0.
  destruct (dict_get _ _); [apply off_channel_try_feeds | apply off_channel_ret].
Qed.

Lemma off_channel_use_fallback_article cid : off_channel (use_fallback_article E cid).
Proof. unfold use_fallback_article, random_index, update_current. off_channel. Qed.

Lemma off_channel_get_image_with_fallback : off_channel (get_image_with_fallback E).
Proof.
  unfold get_image_with_fallback, article_image, extract_image_from_article,
    unsplash_image.
  off_channel.
Qed.

Lemma off_channel_send_news_message u img cap mk :
  off_channel (send_news_message E u img cap mk).
Proof.
  unfold send_news_message.
  apply off_channel_try; [|intros _].
  - destruct u; simpl; by apply off_channel_send_with_retry.
  - destruct u; simpl; by apply off_channel_send_with_retry.
Qed.

Hint Resolve off_channel_try_get_fresh_article off_channel_use_fallback_article
  off_channel_get_image_with_fallback off_channel_send_news_message : off_channel.

Lemma off_channel_preview u cid : off_channel (preview E u cid).
Proof. unfold preview, resolve_article, read_current. off_channel. Qed.

Lemma off_channel_process_category fuel u cid :
  off_channel (process_category E fuel u cid).
Proof.
  revert u cid. induction fuel as [|fuel IH]; intros u cid; simpl.
  - by apply off_channel_silent.
  - apply off_channel_try; [apply off_channel_preview|]. intros _.
    apply off_channel_bind; [by apply off_channel_send_with_retry|]. intros _.
    apply off_channel_bind; [apply off_channel_use_fallback_article|]. intros _.
    apply IH.
Qed.

Lemma off_channel_random_news fuel u : off_channel (random_news E fuel u).
Proof.
  unfold random_news.
  apply off_channel_bind; [apply off_channel_get_state|]. intros st0.
  apply off_channel_bind; [apply off_channel_random_choice|]. intros cid.
  apply off_channel_process_category.
Qed.

(** X22: previews never reach the channel. Whatever the world does and
    however deep the recovery goes, an interaction other than the press of
    the publish button only adds events to the trace, and none of them is a
    delivery to the channel. *)
Theorem channel_untouched_without_publish fuel i st :
  i ≠ CallbackQuery "publish" →
  ∃ evs, trace (handle E fuel i st).2 = trace st ++ evs ∧
         Forall (λ ev, ¬ is_channel_delivery ev) evs.
Proof.
  intros Hi. revert st. change (off_channel (handle E fuel i)).
  destruct i as [| | |text|data]; simpl.
  - by apply off_channel_send_with_retry.
  - by apply off_channel_send_with_retry.
  - apply off_channel_random_news.
  - unfold handle_message.
    repeat match goal with |- context [if ?x then _ else _] => destruct x end;
      auto using off_channel_random_news, off_channel_process_category;
      by apply off_channel_send_with_retry.
  - unfold handle_callback.
    apply off_channel_bind; [by apply off_channel_invoke|]. intros _.
    apply off_channel_try; [|intros _; by apply off_channel_send_with_retry].
    destruct (Py.startswith data "category_").
    + apply off_channel_bind; [apply off_channel_subscript|]. intros cid.
      apply off_channel_process_category.
    + destruct (String.eqb_spec data "publish") as [->|_]; [done|].
      apply off_channel_ret.
Qed.

End Channel.

Lemma channel_untouched_without_publish_witness :
  ∃ evs,
    trace (handle Scenario.stray_underscore 4 (Message "💻 Технологии") (init None)).2
      = trace (init None) ++ evs ∧
    Forall (λ ev, ¬ is_channel_delivery ev) evs.
Proof.
  apply (channel_untouched_without_publish Scenario.stray_underscore 4
           (Message "💻 Технологии") (init None)).
  discriminate.
Defined.
